(** * upload_image.py: proof-of-work solver and multi-file upload loop

    A shallow embedding of [src/upload_image.py] (class [ImageUploader] and
    [main]) together with the properties of its natural-language
    specification.

    Conventions of the embedding:
    - a Python [int] is a [Z]; [//] and [%] by the positive constant 8 are
      [Z.div] and [Z.modulo] (both floor, like Python's);
    - a Python [bytes] value is a [list byte]; indexing it yields an [int];
    - a Python [str] is a [string];
    - a call that may raise returns a [py] value ([Ok] or [Raise]);
    - the [while True] loop of a worker thread is run with fuel; a thread
      that has not finished when the fuel is spent is [Running];
    - [requests.get] and [requests.post] are called without a timeout: a
      call returns a response, raises, or waits for an answer for ever, and
      the computation that waits is [Running];
    - [print] is taken not to fail;
    - everything the program cannot control (the CPU count, the values
      drawn from [random], the order in which futures complete, the file
      system and the HTTP server) is a field of an environment record and
      is universally quantified in the theorems. *)

From Stdlib Require Import ZArith List Bool Lia.
From Stdlib.Strings Require Import String Ascii Byte.
From Stdlib Require Import Permutation.
Import ListNotations.

Local Open Scope Z_scope.

(** ** Exceptions and results *)

(** The exceptions the program can meet.  All of them derive from Python's
    [Exception] except [SystemExit], which [sys.exit] raises and which derives
    from [BaseException] only. *)
Inductive exn : Type :=
| IndexError            (* bytes index out of range *)
| ValueError            (* bytes.fromhex on a malformed string *)
| KeyError              (* challenge[...] on an absent key *)
| OSError               (* open(path, 'rb') failed *)
| RequestException      (* requests.get / requests.post could not complete *)
| HTTPError             (* response.raise_for_status() *)
| JSONDecodeError       (* response.json() on a body that is not JSON *)
| SystemExit (code : Z) (* sys.exit(code) *).

(** [isinstance(e, Exception)]: what [except Exception] catches. *)
Definition is_Exception (e : exn) : bool :=
  match e with
  | SystemExit _ => false
  | _ => true
  end.

(** The outcome of a call: a value, or an exception. *)
Inductive py (A : Type) : Type :=
| Ok (a : A)
| Raise (e : exn).
Arguments Ok {A} a.
Arguments Raise {A} e.

(** The state of a computation that may still be going on. *)
Inductive run (A : Type) : Type :=
| Done (r : py A)
| Running.
Arguments Done {A} r.
Arguments Running {A}.

(** ** Bytes, [range], and hexadecimal text *)

(** The [int] that indexing a [bytes] value yields. *)
Definition byte_int (b : byte) : Z := Z.of_N (Byte.to_N b).

(** [bytes([z])] for [0 <= z < 256]. *)
Definition byte_of_int (z : Z) : byte :=
  match Byte.of_N (Z.to_N (z mod 256)) with
  | Some b => b
  | None => x00
  end.

(** [range(n)]: the integers [0 .. n-1], empty when [n <= 0]. *)
Definition range (n : Z) : list Z := map Z.of_nat (seq 0 (Z.to_nat n)).

(** [hash_bytes[i]]: a negative index counts from the end, and an index
    outside the sequence raises [IndexError]. *)
Definition getitem (hash_bytes : list byte) (i : Z) : py Z :=
  let len := Z.of_nat (List.length hash_bytes) in
  let j := if i <? 0 then i + len else i in
  if (j <? 0) || (len <=? j) then Raise IndexError
  else match nth_error hash_bytes (Z.to_nat j) with
       | Some b => Ok (byte_int b)
       | None => Raise IndexError
       end.

(** One lower-case hexadecimal digit, as [bytes.hex] writes it. *)
Definition hex_digit (d : Z) : ascii :=
  if d <? 10 then ascii_of_N (Z.to_N (48 + d)) else ascii_of_N (Z.to_N (87 + d)).

(** [bs.hex()]: two lower-case digits per byte, high nibble first. *)
Fixpoint hex (bs : list byte) : string :=
  match bs with
  | [] => EmptyString
  | b :: rest =>
      String (hex_digit (byte_int b / 16))
        (String (hex_digit (byte_int b mod 16)) (hex rest))
  end.

(** The value of a hexadecimal digit, of either case ([_PyLong_DigitValue]
    restricted to values below 16). *)
Definition digit_value (c : ascii) : option Z :=
  let n := Z.of_N (N_of_ascii c) in
  if (48 <=? n) && (n <=? 57) then Some (n - 48)
  else if (97 <=? n) && (n <=? 102) then Some (n - 87)
  else if (65 <=? n) && (n <=? 70) then Some (n - 55)
  else None.

(** [Py_ISSPACE]: the ASCII white space that [bytes.fromhex] skips. *)
Definition is_space (c : ascii) : bool :=
  let n := Z.of_N (N_of_ascii c) in
  ((9 <=? n) && (n <=? 13)) || (n =? 32).

(** [bytes.fromhex(s)] (CPython 3.7 and later): white space is skipped
    before each pair of digits, a pair is two adjacent hexadecimal digits,
    and anything else raises [ValueError]. *)
Fixpoint fromhex (s : string) : py (list byte) :=
  match s with
  | EmptyString => Ok []
  | String c rest =>
      if is_space c then fromhex rest
      else
        match digit_value c with
        | None => Raise ValueError
        | Some top =>
            match rest with
            | EmptyString => Raise ValueError
            | String d rest' =>
                match digit_value d with
                | None => Raise ValueError
                | Some bot =>
                    match fromhex rest' with
                    | Ok bs => Ok (byte_of_int (top * 16 + bot) :: bs)
                    | Raise e => Raise e
                    end
                end
            end
        end
  end.

(** ** The difficulty predicate *)

(** The loop [for i in range(full_bytes): if hash_bytes[i] != 0: return False]
    over the indices still to visit.  [Ok (Some r)] is an early [return r],
    [Ok None] is the loop running to its end. *)
Fixpoint for_full_bytes (hash_bytes : list byte) (indices : list Z)
  : py (option bool) :=
  match indices with
  | [] => Ok None
  | i :: rest =>
      match getitem hash_bytes i with
      | Raise e => Raise e
      | Ok b => if negb (b =? 0) then Ok (Some false)
                else for_full_bytes hash_bytes rest
      end
  end.

(** [is_valid_hash(hash_bytes, n)], lines 49-72. *)
Definition is_valid_hash (hash_bytes : list byte) (n : Z) : py bool :=
  let full_bytes := n / 8 in
  match for_full_bytes hash_bytes (range full_bytes) with
  | Raise e => Raise e
  | Ok (Some r) => Ok r
  | Ok None =>
      let remaining_bits := n mod 8 in
      if remaining_bits >? 0 then
        let mask := Z.land (Z.shiftl 255 (8 - remaining_bits)) 255 in
        match getitem hash_bytes full_bytes with
        | Raise e => Raise e
        | Ok b => Ok (Z.land b mask =? 0)
        end
      else Ok true
  end.

(** ** SHA-256

    [hashlib.sha256(data).digest()] is library code; it is modelled by the
    algorithm of FIPS 180-4 on 32-bit words held in [Z], so that the solver
    can be evaluated on concrete inputs.  The examples after the definitions
    compare it with the standard test vectors. *)
Module SHA256.

Definition mask32 : Z := 0xffffffff.

Definition add32 (x y : Z) : Z := (x + y) mod 0x100000000.

Definition rotr (n x : Z) : Z :=
  Z.land (Z.lor (Z.shiftr x n) (Z.shiftl x (32 - n))) mask32.

Definition shr (n x : Z) : Z := Z.shiftr x n.

Definition Ch (x y z : Z) : Z :=
  Z.lxor (Z.land x y) (Z.land (Z.lxor x mask32) z).

Definition Maj (x y z : Z) : Z :=
  Z.lxor (Z.lxor (Z.land x y) (Z.land x z)) (Z.land y z).

Definition Sigma0 (x : Z) : Z := Z.lxor (Z.lxor (rotr 2 x) (rotr 13 x)) (rotr 22 x).
Definition Sigma1 (x : Z) : Z := Z.lxor (Z.lxor (rotr 6 x) (rotr 11 x)) (rotr 25 x).
Definition sigma0 (x : Z) : Z := Z.lxor (Z.lxor (rotr 7 x) (rotr 18 x)) (shr 3 x).
Definition sigma1 (x : Z) : Z := Z.lxor (Z.lxor (rotr 17 x) (rotr 19 x)) (shr 10 x).

(** The primes below [bound], in increasing order. *)
Definition primes_below (bound : nat) : list Z :=
  filter (fun p => (2 <=? p)
                   && forallb (fun d => (d <? 2) || negb (p mod d =? 0))
                              (range p))
         (range (Z.of_nat bound)).

(** The integer cube root of [v] below [2 ^ bits], built from its most
    significant bit down, starting from [r]. *)
Fixpoint icbrt (bits : nat) (v r : Z) : Z :=
  match bits with
  | O => r
  | S b =>
      let c := r + 2 ^ Z.of_nat b in
      if c * c * c <=? v then icbrt b v c else icbrt b v r
  end.

(** The round constants: the first 32 bits of the fractional parts of the
    cube roots of the first 64 primes. *)
Definition K : list Z :=
  Eval vm_compute in
    map (fun p => icbrt 36 (p * 2 ^ 96) 0 mod 2 ^ 32) (primes_below 312).

(** The eight 32-bit words of a hash value, or of the working variables. *)
Record state : Type := mkState {
  sa : Z; sb : Z; sc : Z; sd : Z; se : Z; sf : Z; sg : Z; sh : Z
}.

(** The initial hash value: the first 32 bits of the fractional parts of
    the square roots of the first 8 primes. *)
Definition H0 : state :=
  Eval vm_compute in
    match map (fun p => Z.sqrt (p * 2 ^ 64) mod 2 ^ 32) (primes_below 20) with
    | [a; b; c; d; e; f; g; h] => mkState a b c d e f g h
    | _ => mkState 0 0 0 0 0 0 0 0
    end.

(** The [count] low bytes of [v], most significant first. *)
Fixpoint be_bytes (count : nat) (v : Z) : list byte :=
  match count with
  | O => []
  | S c => byte_of_int (Z.shiftr v (8 * Z.of_nat c)) :: be_bytes c v
  end.

(** Padding: the byte 0x80, zero bytes up to 56 modulo 64, and the length of
    the message in bits as a 64-bit big-endian integer. *)
Definition pad (msg : list byte) : list byte :=
  let l := Z.of_nat (List.length msg) in
  msg ++ [x80] ++ repeat x00 (Z.to_nat ((55 - l) mod 64)) ++ be_bytes 8 (8 * l).

(** Big-endian 32-bit words of a byte sequence. *)
Fixpoint words (bs : list byte) : list Z :=
  match bs with
  | a :: b :: c :: d :: rest =>
      Z.lor (Z.shiftl (byte_int a) 24)
        (Z.lor (Z.shiftl (byte_int b) 16)
           (Z.lor (Z.shiftl (byte_int c) 8) (byte_int d)))
      :: words rest
  | _ => []
  end.

(** The message schedule, built newest word first:
    W_t = sigma1(W_{t-2}) + W_{t-7} + sigma0(W_{t-15}) + W_{t-16}. *)
Fixpoint extend (count : nat) (w : list Z) : list Z :=
  match count with
  | O => w
  | S c =>
      let wt := add32 (add32 (sigma1 (nth 1 w 0)) (nth 6 w 0))
                      (add32 (sigma0 (nth 14 w 0)) (nth 15 w 0)) in
      extend c (wt :: w)
  end.

Definition schedule (block : list Z) : list Z := rev (extend 48 (rev block)).

Definition round (s : state) (kw : Z * Z) : state :=
  let (k, w) := kw in
  let t1 := add32 (add32 (add32 (sh s) (Sigma1 (se s)))
                         (add32 (Ch (se s) (sf s) (sg s)) k)) w in
  let t2 := add32 (Sigma0 (sa s)) (Maj (sa s) (sb s) (sc s)) in
  mkState (add32 t1 t2) (sa s) (sb s) (sc s) (add32 (sd s) t1) (se s) (sf s) (sg s).

Definition compress (h : state) (block : list Z) : state :=
  let v := fold_left round (combine K (schedule block)) h in
  mkState (add32 (sa h) (sa v)) (add32 (sb h) (sb v))
          (add32 (sc h) (sc v)) (add32 (sd h) (sd v))
          (add32 (se h) (se v)) (add32 (sf h) (sf v))
          (add32 (sg h) (sg v)) (add32 (sh h) (sh v)).

(** The hash of the first [blocks] 16-word blocks of [ws]. *)
Fixpoint process (blocks : nat) (ws : list Z) (h : state) : state :=
  match blocks with
  | O => h
  | S b => process b (skipn 16 ws) (compress h (firstn 16 ws))
  end.

Definition output (h : state) : list byte :=
  be_bytes 4 (sa h) ++ be_bytes 4 (sb h) ++ be_bytes 4 (sc h) ++ be_bytes 4 (sd h)
  ++ be_bytes 4 (se h) ++ be_bytes 4 (sf h) ++ be_bytes 4 (sg h) ++ be_bytes 4 (sh h).

Definition digest (msg : list byte) : list byte :=
  let ws := words (pad msg) in
  output (process (Nat.div (List.length ws) 16) ws H0).

End SHA256.

(** [hashlib.sha256(data).digest()]. *)
Definition sha256 (data : list byte) : list byte := SHA256.digest data.

(** The bytes of an ASCII string, for test data. *)
Definition ascii_bytes (s : string) : list byte := list_byte_of_string s.

(** ** Console output

    Every [print] of the program, with the values its f-string interpolates
    kept as arguments instead of being rendered as text. *)
Inductive msg : Type :=
| MText (s : string)               (* print(response.text), print(url) *)
| MFailedChallenge (status : Z)    (* Failed to get challenge: {status} *)
| MChallengeFailed                 (* Challenge request failed *)
| MStarting (n : Z)                (* Starting proof of work calculation (difficulty N = {n} bits)... *)
| MTried (worker_id attempts : Z)  (* Thread {worker_id} has tried {attempts} times... *)
| MFound                           (* Valid suffix found! *)
| MUploading                       (* Uploading... *)
| MUploadFailed                    (* Upload failed *)
| MNotExist (path : string)        (* Error: File '{path}' does not exist *)
| MChallenge (n : Z) (ip : string) (* Challenge received: Difficulty N={n} bits, IP={ip} *)
| MUploadingImage (path : string)  (* Uploading image: {path}... *)
| MUploadOk (path : string)        (* Upload successful: {path} *)
| MError (path : string) (e : exn) (* Error processing file '{path}': {str(e)} *)
| MProcessing (path : string)      (* \nProcessing file: {path} *)
| MSummary (successful total : Z)  (* \nUpload complete: {successful}/{total} files successfully uploaded *)
| MLinks                           (* Upload links: *).

(** ** The proof-of-work solver: [find_suffix], lines 38-110 *)

(** What one call of [find_suffix] cannot control. *)
Record pow_env : Type := mkPowEnv {
  (** the value of [os.cpu_count()]: [None] or an [int] *)
  cpu_count : option Z;
  (** [randint w k]: the value returned by the [k]-th call of
      [random.randint(0, 255)] that worker [w] makes.  The generator is the
      module-level one, seeded by each worker as it starts; whatever the
      seeds and the interleaving of the threads, each worker sees some
      sequence of integers between 0 and 255. *)
  randint : Z -> nat -> byte;
  (** the scheduler: which of the futures still pending completes next *)
  completes_next : nat -> nat
}.

(** A worker thread, as far as it has run. *)
Record thread : Type := mkThread {
  t_result : run (bool * string);  (* the future's result *)
  t_hashes : nat;                  (* SHA-256 digests computed so far *)
  t_stdout : list msg              (* progress lines printed so far *)
}.

Section Solver.

Variable env : pow_env.
Variable pref : string.
Variable n : Z.

Section Worker.

Variable worker_id : Z.

(** [bytes([random.randint(0, 255) for _ in range(64)])] in the iteration
    that follows [attempts] failed ones. *)
Definition candidate (attempts : nat) : list byte :=
  map (randint env worker_id) (seq (64 * attempts) 64).

(** The [while True] loop of [worker], lines 79-94; one unit of fuel is one
    iteration. *)
Fixpoint worker_loop (fuel : nat) (attempts : nat) (out : list msg) : thread :=
  match fuel with
  | O => mkThread Running attempts out
  | S fuel' =>
      let suff := hex (candidate attempts) in
      let combined := (pref ++ suff)%string in
      match fromhex combined with
      | Raise e => mkThread (Done (Raise e)) attempts out
      | Ok data =>
          let hash_result := sha256 data in
          match is_valid_hash hash_result n with
          | Raise e => mkThread (Done (Raise e)) (S attempts) out
          | Ok true => mkThread (Done (Ok (true, suff))) (S attempts) out
          | Ok false =>
              let attempts' := S attempts in
              let out' :=
                if Z.of_nat attempts' mod 10000 =? 0
                then out ++ [MTried worker_id (Z.of_nat attempts')]
                else out in
              worker_loop fuel' attempts' out'
          end
      end
  end.

(** [worker(worker_id)], lines 74-94.  The call of [random.seed] acts on
    the generator only, which [randint] stands for. *)
Definition worker (fuel : nat) : thread := worker_loop fuel 0 [].

End Worker.

(** [x or d] for an optional [int]: [None] and [0] are falsy. *)
Definition py_or (x : option Z) (d : Z) : Z :=
  match x with
  | Some c => if c =? 0 then d else c
  | None => d
  end.

(** [num_workers = min(32, (os.cpu_count() or 5) - 1)], line 101. *)
Definition num_workers : Z := Z.min 32 (py_or (cpu_count env) 5 - 1).

Definition finished (f : thread) : bool :=
  match t_result f with
  | Done _ => true
  | Running => false
  end.

Fixpoint remove_nth {A : Type} (i : nat) (l : list A) : list A :=
  match l with
  | [] => []
  | x :: rest =>
      match i with
      | O => rest
      | S j => x :: remove_nth j rest
      end
  end.

(** The order in which [count] of the [pending] futures complete, chosen by
    the scheduler [pick]. *)
Fixpoint completion_order {A : Type} (pick : nat -> nat) (step count : nat)
    (pending : list A) : list A :=
  match count with
  | O => []
  | S c =>
      match pending with
      | [] => []
      | x :: _ =>
          let i := Nat.modulo (pick step) (List.length pending) in
          nth i pending x
            :: completion_order pick (S step) c (remove_nth i pending)
      end
  end.

(** [concurrent.futures.as_completed(futures)]: the finished futures in
    the order of their completion, then those still running, on which the
    iteration blocks. *)
Definition as_completed (futures : list thread) : list thread :=
  let done := filter finished futures in
  completion_order (completes_next env) 0 (List.length done) done
  ++ filter (fun f => negb (finished f)) futures.

(** The loop of lines 104-108 and the return of the empty string on line
    110 that follows it, with the lines the main thread prints. *)
Fixpoint for_as_completed (fs : list thread) : run string * list msg :=
  match fs with
  | [] => (Done (Ok EmptyString), [])
  | future :: rest =>
      match t_result future with
      | Running => (Running, [])
      | Done (Raise e) => (Done (Raise e), [])
      | Done (Ok (success, suff)) =>
          if success then (Done (Ok suff), [MFound])
          else for_as_completed rest
      end
  end.

(** One call of [find_suffix], as far as it has run. *)
Record search : Type := mkSearch {
  fs_result : run string;    (* returned, raised, or still running *)
  fs_futures : list thread;  (* the futures submitted *)
  fs_stdout : list msg       (* lines printed by the calling thread *)
}.

(** [find_suffix(pref, n, task_id)], lines 96-110.  Leaving the [with]
    block, by [return] or by an exception, runs the executor's [__exit__],
    that is [shutdown(wait=True)]: the call ends only when every submitted
    worker has. *)
Definition find_suffix (task_id : string) (fuel : nat) : search :=
  let futures := map (fun i => worker i fuel) (range num_workers) in
  let (r, out) := for_as_completed (as_completed futures) in
  mkSearch (if forallb finished futures then r else Running)
           futures
           (MStarting n :: out).

(** The SHA-256 digests computed during a call. *)
Definition hashes (s : search) : nat := list_sum (map t_hashes (fs_futures s)).

End Solver.

(** ** Challenge, upload and the loop over the files *)

(** What the program does to the outside world, in order. *)
Inductive event : Type :=
| Print (m : msg)
| HttpGet (url : string)                      (* requests.get(url) *)
| HttpPost (url path task_id suff : string)   (* requests.post(url, files, data) *).

(** A computation of the main thread: how it ended, or that it is still
    running, and the events it produced. *)
Definition io (A : Type) : Type := (run A * list event)%type.

Definition ret {A : Type} (a : A) : io A := (Done (Ok a), []).

Definition raise {A : Type} (e : exn) : io A := (Done (Raise e), []).

Definition emit (e : event) : io unit := (Done (Ok tt), [e]).

(** A call that never returns. *)
Definition wait_for_ever {A : Type} : io A := (Running, []).

Definition print (m : msg) : io unit := emit (Print m).

Definition bind {A B : Type} (m : io A) (k : A -> io B) : io B :=
  match m with
  | (Done (Ok a), t) => let (r, t') := k a in (r, t ++ t')
  | (Done (Raise e), t) => (Done (Raise e), t)
  | (Running, t) => (Running, t)
  end.

Declare Scope io_scope.
Delimit Scope io_scope with io.
Notation "x <- m ;; k" := (bind m (fun x => k))
  (at level 61, m at next level, right associativity) : io_scope.
Notation "m ;; k" := (bind m (fun _ => k))
  (at level 61, right associativity) : io_scope.

(** [try: body  except Exception as e: handler(e)].  A [SystemExit] is not
    an [Exception] and passes through. *)
Definition try_except_Exception {A : Type} (body : io A) (handler : exn -> io A)
  : io A :=
  match body with
  | (Done (Raise e), t) =>
      if is_Exception e then let (r, t') := handler e in (r, t ++ t')
      else (Done (Raise e), t)
  | other => other
  end.

(** [d[key]] on a dictionary in which the key may be absent. *)
Definition getkey {A : Type} (v : option A) : io A :=
  match v with
  | Some a => ret a
  | None => raise KeyError
  end.

(** The JSON object of a challenge response, as far as the program reads
    it: the truth value of [data.get('success')] and the entries [N], [ip],
    [pref] and [taskId], each possibly absent. *)
Record challenge : Type := mkChallenge {
  c_success : bool;
  c_N : option Z;
  c_ip : option string;
  c_pref : option string;
  c_taskId : option string
}.

(** The JSON object of an upload response: the truth value of
    [result.get('success')] and the value of
    [result.get('result', {}).get('url', '')]. *)
Record upload_result : Type := mkUploadResult {
  u_success : bool;
  u_url : string
}.

(** A [requests.Response]; [json] is [None] when the body cannot be read as
    a JSON object, so that [response.json()] or the first access to its
    result raises. *)
Record response (A : Type) : Type := mkResponse {
  status_code : Z;
  text : string;
  json : option A
}.
Arguments mkResponse {A} _ _ _.
Arguments status_code {A} _.
Arguments text {A} _.
Arguments json {A} _.

(** What a call of [requests.get] or [requests.post] comes to.  The
    program passes no timeout, so besides returning a response and raising
    there is a third possibility: the server accepts the connection and
    never answers, and the call never returns. *)
Inductive reply (A : Type) : Type :=
| Answered (r : response A)   (* the call returned this response *)
| Failed                      (* the call raised a RequestException *)
| Unanswered                  (* the call never returns *).
Arguments Answered {A} r.
Arguments Failed {A}.
Arguments Unanswered {A}.

(** What the processing of one file meets: what its challenge request and
    its upload request come to, and the environment of its search. *)
Record file_env : Type := mkFileEnv {
  get_reply : reply challenge;
  pow : pow_env;
  post_reply : reply upload_result
}.

(** The world of one run of the program. *)
Record world : Type := mkWorld {
  isfile : string -> bool;       (* os.path.isfile(path) *)
  readable : string -> bool;     (* open(path, 'rb') succeeds *)
  per_file : nat -> file_env;    (* what the i-th iteration of main's loop meets *)
  patience : nat                 (* fuel for the worker loops of each search *)
}.

Section Uploader.

Variable w : world.
Variable endpoint : string.    (* self.endpoint *)

(** [get_challenge()], lines 23-36. *)
Definition get_challenge (fe : file_env) : io challenge :=
  (emit (HttpGet (endpoint ++ "/api2/challenge")%string) ;;
   match get_reply fe with
   | Unanswered => wait_for_ever
   | Failed => raise RequestException
   | Answered response =>
       print (MText (text response)) ;;
       if negb (status_code response =? 200) then
         print (MFailedChallenge (status_code response)) ;;
         raise (SystemExit 1)
       else
         match json response with
         | None => raise JSONDecodeError
         | Some data =>
             if negb (c_success data) then
               print MChallengeFailed ;;
               raise (SystemExit 1)
             else ret data
         end
   end)%io.

(** [upload_image(path, task_id, suff)], lines 112-137. *)
Definition upload_image (fe : file_env) (path task_id suff : string) : io string :=
  (if negb (readable w path) then raise OSError
   else
     print MUploading ;;
     emit (HttpPost (endpoint ++ "/api2/upload")%string path task_id suff) ;;
     match post_reply fe with
     | Unanswered => wait_for_ever
     | Failed => raise RequestException
     | Answered response =>
         if (400 <=? status_code response) && (status_code response <? 600)
         then raise HTTPError
         else
           match json response with
           | None => raise JSONDecodeError
           | Some result =>
               if negb (u_success result) then
                 print MUploadFailed ;;
                 raise (SystemExit 1)
               else ret (u_url result)
           end
     end)%io.

(** The call of [find_suffix] from the main thread. *)
Definition solve (fe : file_env) (pref : string) (n : Z) (task_id : string)
  : io string :=
  let s := find_suffix (pow fe) pref n task_id (patience w) in
  (fs_result s, map Print (fs_stdout s)).

(** The body of the [try] of [process_file], lines 154-172. *)
Definition process_file_body (fe : file_env) (path : string) : io string :=
  (challenge <- get_challenge fe ;;
   n_value <- getkey (c_N challenge) ;;
   ip <- getkey (c_ip challenge) ;;
   print (MChallenge n_value ip) ;;
   pref <- getkey (c_pref challenge) ;;
   task_id <- getkey (c_taskId challenge) ;;
   suff <- solve fe pref n_value task_id ;;
   print (MUploadingImage path) ;;
   url <- upload_image fe path task_id suff ;;
   print (MUploadOk path) ;;
   ret url)%io.

(** [process_file(path)], lines 139-176, in the [i]-th iteration of the
    loop of [main]. *)
Definition process_file (i : nat) (path : string) : io string :=
  if negb (isfile w path) then
    (print (MNotExist path) ;; ret EmptyString)%io
  else
    try_except_Exception
      (process_file_body (per_file w i) path)
      (fun e => (print (MError path e) ;; ret EmptyString)%io).

(** [if url:] on a string. *)
Definition truthy (s : string) : bool :=
  match s with
  | EmptyString => false
  | String _ _ => true
  end.

(** The loop of [main], lines 196-201, from its [i]-th iteration on. *)
Fixpoint main_loop (i : nat) (image_paths : list string)
    (successful_uploads : Z) (upload_results : list (string * string))
  : io (Z * list (string * string)) :=
  match image_paths with
  | [] => ret (successful_uploads, upload_results)
  | path :: rest =>
      (print (MProcessing path) ;;
       url <- process_file i path ;;
       if truthy url then
         main_loop (S i) rest (successful_uploads + 1)
                   (upload_results ++ [(path, url)])
       else main_loop (S i) rest successful_uploads upload_results)%io
  end.

(** The loop of lines 210-211. *)
Fixpoint print_links (upload_results : list (string * string)) : io unit :=
  match upload_results with
  | [] => ret tt
  | (_, url) :: rest => (print (MText url) ;; print_links rest)%io
  end.

(** [main()], lines 179-211, after the arguments are parsed. *)
Definition main (image_paths : list string) : io unit :=
  (st <- main_loop 0 image_paths 0 [] ;;
   print (MSummary (fst st) (Z.of_nat (List.length image_paths))) ;;
   match snd st with
   | [] => ret tt
   | _ :: _ => print MLinks ;; print_links (snd st)
   end)%io.

End Uploader.

(** ** The specification's reading of the difficulty predicate

    These definitions follow the words of the specification; the theorems
    compare them with [is_valid_hash]. *)

(** The byte at index [i] of a digest, counted from 0. *)
Definition byte_at (digest : list byte) (i : Z) : option Z :=
  if i <? 0 then None
  else option_map byte_int (nth_error digest (Z.to_nat i)).

(** All of bytes [0 .. fullBytes-1] equal 0 and, if [remBits > 0], the byte
    at index [fullBytes] has no bit in common with
    [(0xFF << (8 - remBits)) & 0xFF]. *)
Definition difficulty_met (digest : list byte) (difficultyBits : Z) : Prop :=
  let fullBytes := difficultyBits / 8 in
  let remBits := difficultyBits mod 8 in
  (forall i, 0 <= i < fullBytes -> byte_at digest i = Some 0) /\
  (remBits > 0 ->
   exists b, byte_at digest fullBytes = Some b /\
             Z.land b (Z.land (Z.shiftl 255 (8 - remBits)) 255) = 0).

(** Bit [k] of a digest, most significant bit of each byte first. *)
Definition digest_bit (digest : list byte) (k : Z) : option bool :=
  match byte_at digest (k / 8) with
  | Some b => Some (Z.testbit b (7 - k mod 8))
  | None => None
  end.

(** The first [difficultyBits] bits of the digest are zero. *)
Definition leading_zero_bits (digest : list byte) (difficultyBits : Z) : Prop :=
  forall k, 0 <= k < difficultyBits -> digest_bit digest k = Some false.

(** ** Sample environments

    Concrete values of what the solver cannot control, on which the
    definitions above are evaluated in the examples below. *)

(** A deterministic stand-in for the random generator. *)
Definition demo_randint (worker_id : Z) (k : nat) : byte :=
  byte_of_int (25 * Z.of_nat k + 51 * (Z.of_nat k / 64) + 5 * worker_id).

(** Three CPUs, hence two workers; the future submitted last completes
    first. *)
Definition demo_env : pow_env := mkPowEnv (Some 3) demo_randint (fun _ => 1%nat).

(** Two CPUs, hence one worker, whose generator only ever yields 0. *)
Definition zeros_env : pow_env := mkPowEnv (Some 2) (fun _ _ => x00) (fun _ => 0%nat).

(** A single CPU. *)
Definition single_cpu_env : pow_env := mkPowEnv (Some 1) demo_randint (fun _ => 0%nat).

(** The only candidate the worker of [zeros_env] ever draws. *)
Definition zeros64 : list byte := repeat x00 64.

(** ** Reading a trace *)

(** The paths announced by [Processing file: ...] lines, in order. *)
Fixpoint processed (t : list event) : list string :=
  match t with
  | [] => []
  | Print (MProcessing path) :: rest => path :: processed rest
  | _ :: rest => processed rest
  end.

(** The requests sent to the server. *)
Definition is_network (e : event) : bool :=
  match e with
  | HttpGet _ | HttpPost _ _ _ _ => true
  | Print _ => false
  end.

(** What lines 208-211 print for the collected results. *)
Definition links_trace (upload_results : list (string * string)) : list event :=
  match upload_results with
  | [] => []
  | _ :: _ =>
      Print MLinks :: map (fun pu => Print (MText (snd pu))) upload_results
  end.

(** The answers on which the program calls [sys.exit(1)]: a challenge
    response whose status is not 200 or whose JSON says no success, and an
    upload response without HTTP error status whose JSON says no success. *)
Definition challenge_exits (fe : file_env) : bool :=
  match get_reply fe with
  | Answered r =>
      negb (status_code r =? 200)
      || match json r with
         | Some data => negb (c_success data)
         | None => false
         end
  | _ => false
  end.

Definition upload_exits (fe : file_env) : bool :=
  match post_reply fe with
  | Answered r =>
      negb ((400 <=? status_code r) && (status_code r <? 600))
      && match json r with
         | Some result => negb (u_success result)
         | None => false
         end
  | _ => false
  end.

(** The requests that never return. *)
Definition challenge_unanswered (fe : file_env) : bool :=
  match get_reply fe with
  | Unanswered => true
  | _ => false
  end.

Definition upload_unanswered (fe : file_env) : bool :=
  match post_reply fe with
  | Unanswered => true
  | _ => false
  end.

(** The search for the challenge received is still running when the fuel
    of the world is spent. *)
Definition search_hangs (w : world) (fe : file_env) : bool :=
  match get_reply fe with
  | Answered r =>
      match json r with
      | Some data =>
          match c_N data, c_pref data, c_taskId data with
          | Some n, Some pref, Some task_id =>
              match fs_result (find_suffix (pow fe) pref n task_id (patience w)) with
              | Running => true
              | Done _ => false
              end
          | _, _, _ => false
          end
      | None => false
      end
  | _ => false
  end.


(** A computation that prints no [Processing file: ...] line. *)
Definition quiet {A : Type} (m : io A) : Prop := processed (snd m) = [].

(** ** Sample worlds *)

Definition sample_challenge (n : Z) (pref : string) : response challenge :=
  mkResponse 200 "challenge"
    (Some (mkChallenge true (Some n) (Some "203.0.113.7"%string) (Some pref)
             (Some "task-1"%string))).

Definition sample_upload (url : string) : response upload_result :=
  mkResponse 200 "uploaded" (Some (mkUploadResult true url)).

(** The server cooperates. *)
Definition good_file : file_env :=
  mkFileEnv (Answered (sample_challenge 8 "c0ffee")) demo_env
            (Answered (sample_upload "https://img.example/1.png")).

(** The challenge request is answered with status 500. *)
Definition busy_file : file_env :=
  mkFileEnv (Answered (mkResponse 500 "busy" None)) demo_env Failed.

(** The challenge response says [success: false]. *)
Definition refused_file : file_env :=
  mkFileEnv (Answered (mkResponse 200 "refused"
                         (Some (mkChallenge false None None None None))))
            demo_env Failed.

(** The upload response says [success: false]. *)
Definition rejected_file : file_env :=
  mkFileEnv (Answered (sample_challenge 8 "c0ffee")) demo_env
            (Answered (mkResponse 200 "rejected"
                         (Some (mkUploadResult false EmptyString)))).

(** The server cannot be reached. *)
Definition offline_file : file_env := mkFileEnv Failed demo_env Failed.

(** The upload is answered with status 503. *)
Definition unavailable_file : file_env :=
  mkFileEnv (Answered (sample_challenge 8 "c0ffee")) demo_env
            (Answered (mkResponse 503 "unavailable" None)).

(** The challenge request is never answered. *)
Definition stalled_file : file_env := mkFileEnv Unanswered demo_env Failed.

(** The upload request is never answered. *)
Definition stalled_upload_file : file_env :=
  mkFileEnv (Answered (sample_challenge 8 "c0ffee")) demo_env Unanswered.

(** Every path is a file that can be read; the first challenge request is
    answered with status 500. *)
Definition busy_world : world :=
  mkWorld (fun _ => true) (fun _ => true)
          (fun i => match i with O => busy_file | _ => good_file end) 5.

(** Every path is a regular file, but none can be opened. *)
Definition locked_world : world :=
  mkWorld (fun _ => true) (fun _ => false) (fun _ => good_file) 5.

(** [missing.png] does not exist; the second iteration finds the server
    unreachable, the third has its upload answered with status 503, the
    others succeed. *)
Definition mixed_world : world :=
  mkWorld (fun path => negb (String.eqb path "missing.png")) (fun _ => true)
          (fun i => match i with
                    | 1%nat => offline_file
                    | 2%nat => unavailable_file
                    | _ => good_file
                    end) 5.

(** ** Counting leading zero bits *)

(** The number of zero bits at the start of a byte sequence, most
    significant bit of each byte first: what the docstring of
    [is_valid_hash] compares [n] with. *)
Fixpoint leading_zeros (digest : list byte) : Z :=
  match digest with
  | [] => 0
  | b :: rest =>
      if byte_int b =? 0 then 8 + leading_zeros rest
      else 7 - Z.log2 (byte_int b)
  end.

(** Every byte of the sequence is zero. *)
Definition all_zero (digest : list byte) : bool :=
  forallb (fun b => byte_int b =? 0) digest.

(** ** Progress lines of a worker *)

(** The first [count] progress lines of worker [worker_id]: one for each
    multiple of 10000 failed attempts. *)
Definition progress_lines (worker_id : Z) (count : nat) : list msg :=
  map (fun k => MTried worker_id (10000 * Z.of_nat k)) (seq 1 count).

(** ** A successful upload *)

(** Everything went well for [path] and the server answered with [url]:
    the path is a file that can be opened; the challenge response has
    status 200, says success and has the keys [N], [ip], [pref] and
    [taskId]; the search returned a suffix; the upload response has no HTTP
    error status, says success and carries [url]. *)
Definition uploaded (w : world) (fe : file_env) (path url : string) : Prop :=
  isfile w path = true /\
  readable w path = true /\
  exists r data n ip pref task_id suff r' result,
    get_reply fe = Answered r /\ status_code r = 200 /\
    json r = Some data /\ c_success data = true /\
    c_N data = Some n /\ c_ip data = Some ip /\
    c_pref data = Some pref /\ c_taskId data = Some task_id /\
    fs_result (find_suffix (pow fe) pref n task_id (patience w))
    = Done (Ok suff) /\
    post_reply fe = Answered r' /\
    (400 <=? status_code r') && (status_code r' <? 600) = false /\
    json r' = Some result /\ u_success result = true /\
    u_url result = url.

(** ** The report of [main] *)

(** The counts announced by [Upload complete: ...] lines, in order. *)
Fixpoint summaries (t : list event) : list (Z * Z) :=
  match t with
  | [] => []
  | Print (MSummary successful total) :: rest =>
      (successful, total) :: summaries rest
  | _ :: rest => summaries rest
  end.

(** A computation that prints no [Upload complete: ...] line. *)
Definition silent {A : Type} (m : io A) : Prop := summaries (snd m) = [].

Section Successes.

Variable w : world.
Variable endpoint : string.

(** The paths, from the [i]-th iteration on, for which [process_file]
    returns a non-empty URL, each with that URL. *)
Fixpoint successes (i : nat) (image_paths : list string)
  : list (string * string) :=
  match image_paths with
  | [] => []
  | path :: rest =>
      match fst (process_file w endpoint i path) with
      | Done (Ok url) =>
          if truthy url then (path, url) :: successes (S i) rest
          else successes (S i) rest
      | _ => successes (S i) rest
      end
  end.

(** What the loop of [main] does when it goes through every path, from
    the [i]-th iteration on: for each path in turn, the
    [Processing file: ...] line, then everything [process_file] does for
    that path. *)
Fixpoint loop_trace (i : nat) (image_paths : list string) : list event :=
  match image_paths with
  | [] => []
  | path :: rest =>
      Print (MProcessing path)
      :: snd (process_file w endpoint i path) ++ loop_trace (S i) rest
  end.

End Successes.

(** * Properties *)

(** ** The SHA-256 model against the standard test vectors *)

Example sha256_empty :
  hex (sha256 []) =
  "e3b0c44298fc1c149afbf4c8996fb92427ae41e4649b934ca495991b7852b855"%string.
Proof. vm_compute. reflexivity. Qed.

Example sha256_abc :
  hex (sha256 (ascii_bytes "abc")) =
  "ba7816bf8f01cfea414140de5dae2223b00361a396177a9cb410ff61f20015ad"%string.
Proof. vm_compute. reflexivity. Qed.

Example sha256_two_blocks :
  hex (sha256 (ascii_bytes
         "abcdbcdecdefdefgefghfghighijhijkijkljklmklmnlmnomnopnopq")) =
  "248d6a61d20638b8e5c026930c3e6039a33ce45964ff2167f6ecedd419db06c1"%string.
Proof. vm_compute. reflexivity. Qed.

(** ** Bytes and hexadecimal text *)

Lemma byte_int_range (b : byte) : 0 <= byte_int b < 256.
Proof.
  unfold byte_int. pose proof (Byte.to_N_bounded b). lia.
Qed.

Lemma byte_of_int_byte_int (b : byte) : byte_of_int (byte_int b) = b.
Proof.
  unfold byte_of_int. pose proof (byte_int_range b) as Hb.
  rewrite Z.mod_small by lia. unfold byte_int.
  rewrite N2Z.id, Byte.of_to_N. reflexivity.
Qed.

Lemma hex_digit_value (d : Z) :
  0 <= d < 16 ->
  is_space (hex_digit d) = false /\ digit_value (hex_digit d) = Some d.
Proof.
  intros Hd. rewrite <- (Z2Nat.id d) by lia.
  assert (Hk : (Z.to_nat d < 16)%nat) by lia.
  revert Hk. generalize (Z.to_nat d) as k. intros k Hk.
  do 16 (destruct k as [|k]; [vm_compute; split; reflexivity|]).
  lia.
Qed.

Lemma fromhex_pair (b : byte) (rest : string) :
  fromhex (String (hex_digit (byte_int b / 16))
             (String (hex_digit (byte_int b mod 16)) rest)) =
  match fromhex rest with
  | Ok bs => Ok (b :: bs)
  | Raise e => Raise e
  end.
Proof.
  pose proof (byte_int_range b) as Hb.
  assert (Hhi : 0 <= byte_int b / 16 < 16).
  { split; [apply Z.div_pos; lia | apply Z.div_lt_upper_bound; lia]. }
  assert (Hlo : 0 <= byte_int b mod 16 < 16) by (apply Z.mod_pos_bound; lia).
  destruct (hex_digit_value _ Hhi) as [Hs1 Hd1].
  destruct (hex_digit_value _ Hlo) as [_ Hd2].
  cbn [fromhex]. rewrite Hs1, Hd1, Hd2.
  replace (byte_int b / 16 * 16 + byte_int b mod 16) with (byte_int b)
    by (rewrite (Z.div_mod (byte_int b) 16) at 1; lia).
  rewrite byte_of_int_byte_int. reflexivity.
Qed.

(** Decoding what [hex] wrote gives the bytes back. *)
Lemma fromhex_hex (bs : list byte) : fromhex (hex bs) = Ok bs.
Proof.
  induction bs as [|b bs IH]; [reflexivity|].
  cbn [hex]. rewrite fromhex_pair, IH. reflexivity.
Qed.

Lemma hex_length (bs : list byte) :
  String.length (hex bs) = (2 * List.length bs)%nat.
Proof.
  induction bs as [|b bs IH]; cbn [hex String.length List.length]; lia.
Qed.

(** A lone character in front of well-formed pairs shifts every pair by
    one digit, and the last digit is left without a partner. *)
Lemma fromhex_shifted (c : list byte) :
  forall d, is_space d = false ->
            fromhex (String d (hex c)) = Raise ValueError.
Proof.
  induction c as [|b c IH]; intros d Hd.
  - cbn [hex fromhex]. rewrite Hd. destruct (digit_value d); reflexivity.
  - pose proof (byte_int_range b) as Hb.
    assert (Hhi : 0 <= byte_int b / 16 < 16).
    { split; [apply Z.div_pos; lia | apply Z.div_lt_upper_bound; lia]. }
    assert (Hlo : 0 <= byte_int b mod 16 < 16) by (apply Z.mod_pos_bound; lia).
    destruct (hex_digit_value _ Hhi) as [_ Hd1].
    destruct (hex_digit_value _ Hlo) as [Hs2 _].
    cbn [hex]. cbn [fromhex]. rewrite Hd.
    destruct (digit_value d); [|reflexivity].
    rewrite Hd1.
    change (match fromhex (String (hex_digit (byte_int b mod 16)) (hex c)) with
            | Ok bs => Ok (byte_of_int (z * 16 + byte_int b / 16) :: bs)
            | Raise e => Raise e
            end = Raise ValueError).
    rewrite (IH _ Hs2). reflexivity.
Qed.

(** [bytes.fromhex(pref + suff)] with [suff] written by [hex]: if the
    decoding succeeds, [pref] decodes on its own and the result is the
    concatenation of the two byte sequences. *)
Lemma fromhex_app_hex (c : list byte) :
  forall (pref : string) (bs : list byte),
    fromhex (pref ++ hex c) = Ok bs ->
    exists p, fromhex pref = Ok p /\ bs = p ++ c.
Proof.
  assert (H : forall pref,
             (forall bs, fromhex (pref ++ hex c) = Ok bs ->
                         exists p, fromhex pref = Ok p /\ bs = p ++ c) /\
             (forall a bs, fromhex (String a pref ++ hex c) = Ok bs ->
                           exists p, fromhex (String a pref) = Ok p /\ bs = p ++ c)).
  { induction pref as [|x s [IH1 IH2]].
    - split.
      + intros bs Hbs. cbn [String.append] in Hbs. rewrite fromhex_hex in Hbs.
        injection Hbs as <-. exists []. split; reflexivity.
      + intros a bs Hbs. cbn [String.append] in Hbs.
        destruct (is_space a) eqn:Ha.
        * cbn [fromhex] in Hbs |- *. rewrite Ha in Hbs |- *.
          rewrite fromhex_hex in Hbs. injection Hbs as <-.
          exists []. split; reflexivity.
        * rewrite (fromhex_shifted c a Ha) in Hbs. discriminate.
    - split; [exact (IH2 x)|].
      intros a bs Hbs. cbn [String.append] in Hbs.
      cbn [fromhex] in Hbs |- *.
      destruct (is_space a) eqn:Ha.
      + apply (IH2 x bs). exact Hbs.
      + destruct (digit_value a) as [top|]; [|discriminate].
        destruct (digit_value x) as [bot|]; [|discriminate].
        destruct (fromhex (s ++ hex c)) as [bs'|e] eqn:Hrest; [|discriminate].
        injection Hbs as <-.
        destruct (IH1 bs' eq_refl) as [p [Hp ->]].
        rewrite Hp. exists (byte_of_int (top * 16 + bot) :: p).
        split; reflexivity. }
  intros pref. apply (H pref).
Qed.

(** Conversely, a prefix that decodes can be followed by any [hex] text. *)
Lemma fromhex_app_ok (c : list byte) :
  forall (pref : string) (p : list byte),
    fromhex pref = Ok p -> fromhex (pref ++ hex c) = Ok (p ++ c).
Proof.
  assert (H : forall pref,
             (forall p, fromhex pref = Ok p ->
                        fromhex (pref ++ hex c) = Ok (p ++ c)) /\
             (forall a p, fromhex (String a pref) = Ok p ->
                          fromhex (String a pref ++ hex c) = Ok (p ++ c))).
  { induction pref as [|x s [IH1 IH2]].
    - split.
      + intros p Hp. injection Hp as <-. apply fromhex_hex.
      + intros a p Hp. cbn [String.append]. cbn [fromhex] in Hp |- *.
        destruct (is_space a).
        * injection Hp as <-. apply fromhex_hex.
        * destruct (digit_value a); discriminate.
    - split; [exact (IH2 x)|].
      intros a p Hp. cbn [String.append]. cbn [fromhex] in Hp |- *.
      destruct (is_space a).
      + apply (IH2 x p). exact Hp.
      + destruct (digit_value a) as [top|]; [|discriminate].
        destruct (digit_value x) as [bot|]; [|discriminate].
        destruct (fromhex s) as [p'|e] eqn:Hs; [|discriminate].
        injection Hp as <-. rewrite (IH1 p' eq_refl). reflexivity. }
  intros pref. apply (H pref).
Qed.

(** ** The difficulty predicate *)

Lemma in_range (m i : Z) : In i (range m) <-> 0 <= i < m.
Proof.
  unfold range. rewrite in_map_iff. split.
  - intros [k [<- Hk]]. apply in_seq in Hk. lia.
  - intros Hi. exists (Z.to_nat i). split; [lia|]. apply in_seq. lia.
Qed.

(** Indexing with a non-negative index: the byte there, or [IndexError]. *)
Lemma getitem_nonneg (h : list byte) (i : Z) :
  0 <= i ->
  getitem h i = match byte_at h i with
                | Some b => Ok b
                | None => Raise IndexError
                end.
Proof.
  intros Hi. unfold getitem, byte_at.
  assert (Hneg : (i <? 0) = false) by (apply Z.ltb_ge; lia).
  rewrite !Hneg. cbn [orb].
  destruct (Z.of_nat (List.length h) <=? i) eqn:Hlen.
  - apply Z.leb_le in Hlen.
    assert (Hnone : nth_error h (Z.to_nat i) = None)
      by (apply nth_error_None; lia).
    rewrite Hnone. reflexivity.
  - destruct (nth_error h (Z.to_nat i)); reflexivity.
Qed.

Lemma getitem_zero_iff (h : list byte) (i : Z) :
  0 <= i -> (getitem h i = Ok 0 <-> byte_at h i = Some 0).
Proof.
  intros Hi. rewrite (getitem_nonneg h i Hi).
  destruct (byte_at h i); split; intros H; try discriminate;
    injection H as ->; reflexivity.
Qed.

(** The loop over the full bytes runs to its end exactly when every byte it
    visits is zero. *)
Lemma for_full_bytes_through (h : list byte) (indices : list Z) :
  for_full_bytes h indices = Ok None <->
  Forall (fun i => getitem h i = Ok 0) indices.
Proof.
  induction indices as [|i rest IH]; cbn [for_full_bytes].
  - split; [constructor | reflexivity].
  - destruct (getitem h i) as [b|e] eqn:Hg.
    + destruct (b =? 0) eqn:Hb; cbn [negb].
      * apply Z.eqb_eq in Hb. subst b. rewrite IH. split.
        -- intros H. constructor; [exact Hg | exact H].
        -- intros H. inversion H; assumption.
      * apply Z.eqb_neq in Hb. split; [discriminate|].
        intros H. inversion H as [|? ? Hhd _]. congruence.
    + split; [discriminate|]. intros H. inversion H. congruence.
Qed.

(** The only value the loop ever returns early is [False]. *)
Lemma for_full_bytes_early (h : list byte) (indices : list Z) (r : bool) :
  for_full_bytes h indices = Ok (Some r) -> r = false.
Proof.
  induction indices as [|i rest IH]; cbn [for_full_bytes]; [discriminate|].
  destruct (getitem h i) as [b|e]; [|discriminate].
  destruct (negb (b =? 0)); [|exact IH].
  intros H. injection H as <-. reflexivity.
Qed.

(** [is_valid_hash] against the specification's difficulty predicate. *)
Lemma is_valid_hash_iff (h : list byte) (n : Z) :
  0 <= n -> (is_valid_hash h n = Ok true <-> difficulty_met h n).
Proof.
  intros Hn. unfold is_valid_hash, difficulty_met. cbv zeta.
  assert (Hq : 0 <= n / 8) by (apply Z.div_pos; lia).
  assert (Hall : Forall (fun i => getitem h i = Ok 0) (range (n / 8)) <->
                 forall i, 0 <= i < n / 8 -> byte_at h i = Some 0).
  { rewrite Forall_forall. split.
    - intros H i Hi. apply getitem_zero_iff; [lia|]. apply H, in_range, Hi.
    - intros H i Hi. apply in_range in Hi. apply getitem_zero_iff; [lia|].
      apply H, Hi. }
  rewrite <- Hall, <- for_full_bytes_through.
  destruct (for_full_bytes h (range (n / 8))) as [[r|]|e] eqn:Hloop.
  - apply for_full_bytes_early in Hloop. subst r.
    split; [discriminate | intros [H _]; discriminate].
  - rewrite (getitem_nonneg h (n / 8) Hq).
    destruct (n mod 8 >? 0) eqn:Hrem.
    + apply Z.gtb_lt in Hrem.
      destruct (byte_at h (n / 8)) as [b|].
      * split.
        -- intros H. injection H as H. apply Z.eqb_eq in H.
           split; [reflexivity|]. intros _. exists b. split; [reflexivity | exact H].
        -- intros [_ H]. destruct (H ltac:(lia)) as [b' [Hb' Hmask]].
           injection Hb' as <-. f_equal. apply Z.eqb_eq. exact Hmask.
      * split; [discriminate|].
        intros [_ H]. destruct (H ltac:(lia)) as [b' [Hb' _]]. discriminate.
    + split; [|reflexivity]. intros _. split; [reflexivity|].
      intros Hpos. rewrite Z.gtb_ltb in Hrem. apply Z.ltb_ge in Hrem. lia.
  - split; [discriminate | intros [H _]; discriminate].
Qed.

(** *** Bytes and bits *)

Lemma div_mod_8 (q r : Z) :
  0 <= r < 8 -> (8 * q + r) / 8 = q /\ (8 * q + r) mod 8 = r.
Proof.
  intros Hr. split.
  - symmetry. apply (Z.div_unique (8 * q + r) 8 q r); lia.
  - symmetry. apply (Z.mod_unique (8 * q + r) 8 q r); lia.
Qed.

(** The mask of line 69 has exactly the top [remaining_bits] bits of a
    byte set. *)
Lemma mask_testbit (r j : Z) :
  0 < r < 8 -> 0 <= j ->
  Z.testbit (Z.land (Z.shiftl 255 (8 - r)) 255) j = (8 - r <=? j) && (j <? 8).
Proof.
  intros Hr Hj. rewrite Z.land_spec, Z.shiftl_spec by lia.
  change 255 with (Z.ones 8).
  rewrite (Z.testbit_ones_nonneg 8 j) by lia.
  destruct (8 - r <=? j) eqn:Hlo.
  - apply Z.leb_le in Hlo. rewrite Z.testbit_ones_nonneg by lia.
    destruct (j <? 8) eqn:Hhi; [|apply andb_false_r].
    apply Z.ltb_lt in Hhi. cbn [andb].
    rewrite andb_true_r. apply Z.ltb_lt. lia.
  - apply Z.leb_gt in Hlo. rewrite Z.testbit_neg_r by lia. reflexivity.
Qed.

Lemma byte_zero_bits (b : Z) :
  0 <= b < 256 ->
  (forall j, 0 <= j < 8 -> Z.testbit b j = false) -> b = 0.
Proof.
  intros Hb Hbits. apply Z.bits_inj'. intros j Hj.
  rewrite Z.bits_0. destruct (Z_lt_ge_dec j 8) as [Hlt|Hge].
  - apply Hbits. lia.
  - apply Z.testbit_false; [lia|].
    assert (Hpow : 2 ^ 8 <= 2 ^ j) by (apply Z.pow_le_mono_r; lia).
    change (2 ^ 8) with 256 in Hpow.
    rewrite Z.div_small by lia. reflexivity.
Qed.

Lemma byte_at_range (h : list byte) (i b : Z) :
  byte_at h i = Some b -> 0 <= b < 256.
Proof.
  unfold byte_at. destruct (i <? 0); [discriminate|].
  destruct (nth_error h (Z.to_nat i)) as [x|]; [|discriminate].
  cbn [option_map]. intros H. injection H as <-. apply byte_int_range.
Qed.

Lemma digest_bit_at (h : list byte) (q r : Z) :
  0 <= r < 8 ->
  digest_bit h (8 * q + r) =
  match byte_at h q with
  | Some b => Some (Z.testbit b (7 - r))
  | None => None
  end.
Proof.
  intros Hr. unfold digest_bit.
  destruct (div_mod_8 q r Hr) as [-> ->]. reflexivity.
Qed.

(** The specification's two descriptions of the predicate agree: the bytes
    and the mask on one side, the first [n] bits, most significant bit of
    each byte first, on the other. *)
Lemma difficulty_met_bits (h : list byte) (n : Z) :
  0 <= n -> (difficulty_met h n <-> leading_zero_bits h n).
Proof.
  intros Hn. unfold difficulty_met, leading_zero_bits. cbv zeta.
  pose proof (Z.div_mod n 8 ltac:(lia)) as Hdm.
  pose proof (Z.mod_pos_bound n 8 ltac:(lia)) as Hrb.
  split.
  - intros [Hfull Hrem] k Hk.
    pose proof (Z.div_mod k 8 ltac:(lia)) as Hkdm.
    pose proof (Z.mod_pos_bound k 8 ltac:(lia)) as Hkb.
    rewrite Hkdm at 1. rewrite digest_bit_at by lia.
    destruct (Z_lt_ge_dec (k / 8) (n / 8)) as [Hlt|Hge].
    + rewrite Hfull by (split; [apply Z.div_pos|]; lia).
      rewrite Z.bits_0. reflexivity.
    + assert (Hq : k / 8 = n / 8) by lia.
      destruct (Hrem ltac:(lia)) as [b [Hb Hmask]].
      rewrite Hq, Hb. f_equal.
      assert (Hbit : Z.testbit
                (Z.land b (Z.land (Z.shiftl 255 (8 - n mod 8)) 255))
                (7 - k mod 8) = false) by (rewrite Hmask; apply Z.bits_0).
      rewrite Z.land_spec, mask_testbit in Hbit by lia.
      replace (8 - n mod 8 <=? 7 - k mod 8) with true in Hbit
        by (symmetry; apply Z.leb_le; lia).
      replace (7 - k mod 8 <? 8) with true in Hbit
        by (symmetry; apply Z.ltb_lt; lia).
      cbn [andb] in Hbit. rewrite andb_true_r in Hbit. exact Hbit.
  - intros Hbits. split.
    + intros i Hi.
      pose proof (Hbits (8 * i + 0) ltac:(lia)) as H0.
      rewrite digest_bit_at in H0 by lia.
      destruct (byte_at h i) as [b|] eqn:Hb; [|discriminate].
      f_equal. apply byte_zero_bits; [apply (byte_at_range h i b Hb)|].
      intros j Hj.
      pose proof (Hbits (8 * i + (7 - j)) ltac:(lia)) as Hj'.
      rewrite digest_bit_at, Hb in Hj' by lia.
      replace (7 - (7 - j)) with j in Hj' by lia. congruence.
    + intros Hpos.
      pose proof (Hbits (8 * (n / 8) + 0) ltac:(lia)) as H0.
      rewrite digest_bit_at in H0 by lia.
      destruct (byte_at h (n / 8)) as [b|] eqn:Hb; [|discriminate].
      exists b. split; [reflexivity|].
      apply Z.bits_inj'. intros j Hj.
      rewrite Z.bits_0, Z.land_spec, mask_testbit by lia.
      destruct (8 - n mod 8 <=? j) eqn:Hlo; [|apply andb_false_r].
      destruct (j <? 8) eqn:Hhi; [|apply andb_false_r].
      apply Z.leb_le in Hlo. apply Z.ltb_lt in Hhi.
      pose proof (Hbits (8 * (n / 8) + (7 - j)) ltac:(lia)) as Hj'.
      rewrite digest_bit_at, Hb in Hj' by lia.
      replace (7 - (7 - j)) with j in Hj' by lia.
      assert (Hbj : Z.testbit b j = false) by congruence.
      rewrite Hbj. reflexivity.
Qed.

(** What [is_valid_hash] decides is that the first [n] bits are zero. *)
Lemma is_valid_hash_bits (h : list byte) (n : Z) :
  0 <= n -> (is_valid_hash h n = Ok true <-> leading_zero_bits h n).
Proof.
  intros Hn. rewrite (is_valid_hash_iff h n Hn).
  apply difficulty_met_bits, Hn.
Qed.

(** ** The worker loop *)

Lemma candidate_length (env : pow_env) (worker_id : Z) (attempts : nat) :
  List.length (candidate env worker_id attempts) = 64%nat.
Proof.
  unfold candidate. rewrite length_map, length_seq. reflexivity.
Qed.

(** A worker that returns returns [(True, suff)] where [suff] is the text of
    one of its candidates, and the digest of the decoded concatenation was
    accepted by [is_valid_hash]. *)
Lemma worker_loop_returns (env : pow_env) (pref : string) (n worker_id : Z) :
  forall (fuel attempts : nat) (out : list msg) (success : bool) (suff : string),
    t_result (worker_loop env pref n worker_id fuel attempts out)
    = Done (Ok (success, suff)) ->
    success = true /\
    exists a data,
      suff = hex (candidate env worker_id a) /\
      fromhex (pref ++ suff) = Ok data /\
      is_valid_hash (sha256 data) n = Ok true.
Proof.
  induction fuel as [|fuel IH]; intros attempts out success suff;
    cbn [worker_loop]; [discriminate|].
  destruct (fromhex (pref ++ hex (candidate env worker_id attempts)))
    as [data|e] eqn:Hdata; [|discriminate].
  destruct (is_valid_hash (sha256 data) n) as [[|]|e] eqn:Hvalid.
  - cbn [t_result]. intros H. injection H as <- <-.
    split; [reflexivity|]. exists attempts, data. auto.
  - apply IH.
  - discriminate.
Qed.

(** The exceptions a worker can end with: [ValueError] from
    [bytes.fromhex] and whatever [is_valid_hash] raised. *)
Lemma worker_loop_raises (env : pow_env) (pref : string) (n worker_id : Z) :
  forall (fuel attempts : nat) (out : list msg) (e : exn),
    t_result (worker_loop env pref n worker_id fuel attempts out)
    = Done (Raise e) ->
    (exists a, fromhex (pref ++ hex (candidate env worker_id a)) = Raise e) \/
    (exists data, is_valid_hash (sha256 data) n = Raise e).
Proof.
  induction fuel as [|fuel IH]; intros attempts out e;
    cbn [worker_loop]; [discriminate|].
  destruct (fromhex (pref ++ hex (candidate env worker_id attempts)))
    as [data|e'] eqn:Hdata.
  - destruct (is_valid_hash (sha256 data) n) as [[|]|e'] eqn:Hvalid.
    + discriminate.
    + apply IH.
    + cbn [t_result]. intros H. injection H as <-. right. exists data. exact Hvalid.
  - cbn [t_result]. intros H. injection H as <-. left. exists attempts.
    exact Hdata.
Qed.

(** ** Scheduling of the futures *)

Lemma remove_nth_perm {A : Type} (d : A) :
  forall (l : list A) (i : nat),
    (i < List.length l)%nat -> Permutation (nth i l d :: remove_nth i l) l.
Proof.
  induction l as [|x l IH]; intros i Hi; cbn [List.length] in Hi; [lia|].
  destruct i as [|i]; cbn [nth remove_nth].
  - apply Permutation_refl.
  - eapply Permutation_trans; [apply perm_swap|].
    apply perm_skip, IH. lia.
Qed.

Lemma completion_order_perm {A : Type} (pick : nat -> nat) :
  forall (count step : nat) (pending : list A),
    List.length pending = count ->
    Permutation (completion_order pick step count pending) pending.
Proof.
  induction count as [|count IH]; intros step pending Hlen.
  - destruct pending; [apply perm_nil | discriminate].
  - destruct pending as [|x rest]; [discriminate|].
    cbn [completion_order].
    set (i := Nat.modulo (pick step) (List.length (x :: rest))).
    assert (Hi : (i < List.length (x :: rest))%nat).
    { apply Nat.mod_upper_bound. discriminate. }
    eapply Permutation_trans; [|apply (remove_nth_perm x (x :: rest) i Hi)].
    apply perm_skip, IH.
    pose proof (Permutation_length (remove_nth_perm x (x :: rest) i Hi)) as Hl.
    cbn [List.length] in Hl, Hlen. lia.
Qed.

Lemma filter_split_perm {A : Type} (f : A -> bool) (l : list A) :
  Permutation (filter f l ++ filter (fun x => negb (f x)) l) l.
Proof.
  induction l as [|x l IH]; [apply perm_nil|].
  cbn [filter]. destruct (f x); cbn [negb app].
  - apply perm_skip, IH.
  - apply Permutation_sym, Permutation_cons_app, Permutation_sym, IH.
Qed.

(** Whatever the scheduler chooses, [as_completed] yields every future
    exactly once. *)
Lemma as_completed_perm (env : pow_env) (futures : list thread) :
  Permutation (as_completed env futures) futures.
Proof.
  unfold as_completed.
  eapply Permutation_trans; [|apply (filter_split_perm finished)].
  apply Permutation_app_tail, completion_order_perm. reflexivity.
Qed.

(** What the loop over the completed futures can return: the suffix of a
    future that succeeded, or the empty string after every future reported
    no success. *)
Lemma for_as_completed_returns (fs : list thread) (s : string) (out : list msg) :
  for_as_completed fs = (Done (Ok s), out) ->
  (exists f, In f fs /\ t_result f = Done (Ok (true, s))) \/
  (s = EmptyString /\
   forall f, In f fs -> exists s', t_result f = Done (Ok (false, s'))).
Proof.
  induction fs as [|f rest IH]; cbn [for_as_completed].
  - intros H. injection H as <- _. right. split; [reflexivity|].
    intros f [].
  - destruct (t_result f) as [[[success suff]|e]|] eqn:Hf; try discriminate.
    destruct success.
    + intros H. injection H as <- _. left. exists f. split; [left; reflexivity|].
      exact Hf.
    + intros H. destruct (IH H) as [[f' [Hin Hf']]|[-> Hall]].
      * left. exists f'. split; [right; exact Hin | exact Hf'].
      * right. split; [reflexivity|]. intros f' [<-|Hin].
        -- exists suff. exact Hf.
        -- apply Hall, Hin.
Qed.

Lemma for_as_completed_raises (fs : list thread) (e : exn) (out : list msg) :
  for_as_completed fs = (Done (Raise e), out) ->
  exists f, In f fs /\ t_result f = Done (Raise e).
Proof.
  induction fs as [|f rest IH]; cbn [for_as_completed]; [discriminate|].
  destruct (t_result f) as [[[success suff]|e']|] eqn:Hf; try discriminate.
  - destruct success; [discriminate|].
    intros H. destruct (IH H) as [f' [Hin Hf']].
    exists f'. split; [right; exact Hin | exact Hf'].
  - intros H. injection H as <- _. exists f. split; [left; reflexivity | exact Hf].
Qed.

(** Besides the line printed when the search starts, the calling thread
    prints at most [Valid suffix found!]. *)
Lemma for_as_completed_out (fs : list thread) :
  snd (for_as_completed fs) = [] \/ snd (for_as_completed fs) = [MFound].
Proof.
  induction fs as [|f rest IH]; cbn [for_as_completed]; [left; reflexivity|].
  destruct (t_result f) as [[[success suff]|e]|]; try (left; reflexivity).
  destruct success; [right; reflexivity | exact IH].
Qed.

Lemma range_nonempty (m : Z) : 1 <= m -> range m <> [].
Proof.
  intros Hm Hnil. assert (Hin : In 0 (range m)) by (apply in_range; lia).
  rewrite Hnil in Hin. exact Hin.
Qed.

(** ** The solver *)

(** With at least one worker, a suffix that [find_suffix] returns was
    returned by one of its workers. *)
Lemma find_suffix_from_worker (env : pow_env) (pref : string) (n : Z)
    (task_id : string) (fuel : nat) (s : string) :
  1 <= num_workers env ->
  fs_result (find_suffix env pref n task_id fuel) = Done (Ok s) ->
  exists i, 0 <= i < num_workers env /\
            t_result (worker env pref n i fuel) = Done (Ok (true, s)).
Proof.
  intros Hw. unfold find_suffix.
  set (futures := map (fun i => worker env pref n i fuel) (range (num_workers env))).
  destruct (for_as_completed (as_completed env futures)) as [r out] eqn:Hloop.
  cbn [fs_result]. destruct (forallb finished futures); [|discriminate].
  intros ->.
  assert (Hfrom : forall f, In f (as_completed env futures) ->
                  exists i, 0 <= i < num_workers env /\
                            f = worker env pref n i fuel).
  { intros f Hf. apply (Permutation_in _ (as_completed_perm env futures)) in Hf.
    unfold futures in Hf. apply in_map_iff in Hf.
    destruct Hf as [i [<- Hi]]. exists i. split; [apply in_range, Hi | reflexivity]. }
  destruct (for_as_completed_returns _ _ _ Hloop) as [[f [Hin Hf]]|[_ Hall]].
  - destruct (Hfrom f Hin) as [i [Hi ->]]. exists i. split; assumption.
  - exfalso.
    destruct (as_completed env futures) as [|f rest] eqn:Hac.
    + pose proof (Permutation_length (as_completed_perm env futures)) as Hl.
      rewrite Hac in Hl. unfold futures in Hl. rewrite length_map in Hl.
      cbn [List.length] in Hl.
      destruct (range (num_workers env)) eqn:Hr; [|discriminate].
      exact (range_nonempty _ Hw Hr).
    + destruct (Hall f (or_introl eq_refl)) as [s' Hs'].
      destruct (Hfrom f (or_introl eq_refl)) as [i [_ ->]].
      apply worker_loop_returns in Hs'. destruct Hs' as [Hs' _]. discriminate.
Qed.

(** ** Claims about the difficulty predicate *)

Lemma top_three_bits (b : byte) :
  (Z.land (byte_int b) (Z.land (Z.shiftl 255 5) 255) =? 0)
  = (Z.shiftr (byte_int b) 5 =? 0).
Proof. destruct b; reflexivity. Qed.

(** C2. For every digest and every difficulty [n] (an unsigned integer),
    [is_valid_hash] returns [True] if and only if all bytes at indices
    [0 .. n/8 - 1] are 0 and, when [n % 8 > 0], the byte at index [n/8] has
    no bit in common with [(0xFF << (8 - n%8)) & 0xFF]; lower bits of that
    byte and all later bytes are unconstrained.  In particular at [n = 8]
    the result is whether byte 0 is zero, whatever byte 1 is, and at
    [n = 11] it is whether byte 0 is zero and the top three bits of byte 1
    are zero, whatever the low five bits of byte 1 are. *)
Theorem is_valid_hash_correct :
  (forall (h : list byte) (n : Z),
      0 <= n -> (is_valid_hash h n = Ok true <-> difficulty_met h n)) /\
  (forall (b0 : byte) (rest : list byte),
      is_valid_hash (b0 :: rest) 8 = Ok (byte_int b0 =? 0)) /\
  (forall (b0 b1 : byte) (rest : list byte),
      is_valid_hash (b0 :: b1 :: rest) 11
      = Ok ((byte_int b0 =? 0) && (Z.shiftr (byte_int b1) 5 =? 0))).
Proof.
  split; [exact is_valid_hash_iff|]. split.
  - intros b0 rest. unfold is_valid_hash.
    change (8 / 8) with 1. change (8 mod 8) with 0. change (range 1) with [0].
    cbn [for_full_bytes]. rewrite getitem_nonneg by lia.
    change (byte_at (b0 :: rest) 0) with (Some (byte_int b0)).
    cbv beta iota.
    destruct (byte_int b0 =? 0); reflexivity.
  - intros b0 b1 rest. unfold is_valid_hash.
    change (11 / 8) with 1. change (11 mod 8) with 3. change (range 1) with [0].
    cbn [for_full_bytes]. rewrite !getitem_nonneg by lia.
    change (byte_at (b0 :: b1 :: rest) 0) with (Some (byte_int b0)).
    change (byte_at (b0 :: b1 :: rest) 1) with (Some (byte_int b1)).
    cbv beta iota.
    destruct (byte_int b0 =? 0); cbn [negb andb]; [|reflexivity].
    change (3 >? 0) with true. cbv iota. change (8 - 3) with 5.
    rewrite top_three_bits. reflexivity.
Qed.

(** At difficulty 12 the digest 00 0f ff is accepted: one zero byte, then
    a byte whose top four bits are zero. *)
Lemma is_valid_hash_correct_witness :
  is_valid_hash [x00; x0f; xff] 12 = Ok true <-> difficulty_met [x00; x0f; xff] 12.
Proof.
  apply (proj1 is_valid_hash_correct [x00; x0f; xff] 12). lia.
Defined.

(** C8. The predicate is antitone in the difficulty: a digest accepted at
    difficulty [n] is accepted at every difficulty [m] with [0 <= m <= n].
    (No bound on [n] is needed: a digest is never accepted at a difficulty
    beyond its bit length.) *)
Theorem is_valid_hash_antitone (h : list byte) (m n : Z) :
  0 <= m <= n ->
  is_valid_hash h n = Ok true -> is_valid_hash h m = Ok true.
Proof.
  intros Hmn Hn.
  apply is_valid_hash_bits in Hn; [|lia].
  apply is_valid_hash_bits; [lia|].
  intros k Hk. apply Hn. lia.
Qed.

Lemma is_valid_hash_antitone_witness :
  is_valid_hash [x00; x0f; xff] 5 = Ok true.
Proof.
  apply (is_valid_hash_antitone [x00; x0f; xff] 5 12); [lia | reflexivity].
Defined.

(** Below zero the predicate is not antitone: a negative [n] makes line 70
    index the digest from its end. *)
Example is_valid_hash_negative :
  is_valid_hash [x00; xff] 8 = Ok true /\ is_valid_hash [x00; xff] (-3) = Ok false.
Proof. split; reflexivity. Qed.

(** ** Claims about the solver *)

Lemma be_bytes_length (count : nat) (v : Z) :
  List.length (SHA256.be_bytes count v) = count.
Proof.
  induction count as [|c IH]; cbn [SHA256.be_bytes List.length]; congruence.
Qed.

(** A SHA-256 digest has 32 bytes. *)
Lemma sha256_length (data : list byte) : List.length (sha256 data) = 32%nat.
Proof.
  unfold sha256, SHA256.digest, SHA256.output.
  rewrite !length_app, !be_bytes_length. reflexivity.
Qed.

(** C1. For every difficulty [n] with [0 <= n <= 256] and at least one
    worker launched, a suffix that [find_suffix] returns is the hexadecimal
    text of a byte sequence of length 64, the prefix decodes, and the
    SHA-256 digest of the decoded prefix bytes followed by the suffix bytes
    has its first [n] bits equal to zero, most significant bit of each byte
    first. *)
Theorem find_suffix_sound (env : pow_env) (pref : string) (n : Z)
    (task_id : string) (fuel : nat) (s : string) :
  0 <= n <= 256 ->
  1 <= num_workers env ->
  fs_result (find_suffix env pref n task_id fuel) = Done (Ok s) ->
  exists prefix suffix,
    fromhex pref = Ok prefix /\
    s = hex suffix /\
    List.length suffix = 64%nat /\
    String.length s = 128%nat /\
    leading_zero_bits (sha256 (prefix ++ suffix)) n.
Proof.
  intros Hn Hw Hs.
  destruct (find_suffix_from_worker env pref n task_id fuel s Hw Hs)
    as [i [_ Hi]].
  apply worker_loop_returns in Hi.
  destruct Hi as [_ [a [data [-> [Hdata Hvalid]]]]].
  destruct (fromhex_app_hex _ _ _ Hdata) as [prefix [Hprefix ->]].
  exists prefix, (candidate env i a).
  split; [exact Hprefix|]. split; [reflexivity|].
  split; [apply candidate_length|].
  split; [rewrite hex_length, candidate_length; reflexivity|].
  apply is_valid_hash_bits; [lia | exact Hvalid].
Qed.

(** Prefix c0ffee at difficulty 8 with two workers: worker 1 succeeds at
    its third candidate, worker 0 at its fifth, and the future of worker 1
    is the first to complete. *)
Lemma find_suffix_sound_witness :
  exists prefix suffix,
    fromhex "c0ffee" = Ok prefix /\
    hex (candidate demo_env 1 2) = hex suffix /\
    List.length suffix = 64%nat /\
    String.length (hex (candidate demo_env 1 2)) = 128%nat /\
    leading_zero_bits (sha256 (prefix ++ suffix)) 8.
Proof.
  apply (find_suffix_sound demo_env "c0ffee" 8 "task" 5).
  - lia.
  - vm_compute. discriminate.
  - vm_compute. reflexivity.
Defined.

Example find_suffix_demo :
  fs_result (find_suffix demo_env "c0ffee" 8 "task" 5)
  = Done (Ok "eb041d364f68819ab3cce5fe173049627b94adc6dff8112a435c758ea7c0d9f20b243d566f88a1bad3ec051e375069829bb4cde6ff18314a637c95aec7e0f912"%string)
  /\ hashes (find_suffix demo_env "c0ffee" 8 "task" 5) = 8%nat
  /\ fs_result (find_suffix demo_env "c0ffee" 8 "task" 4) = Running.
Proof. vm_compute. repeat split; reflexivity. Qed.

(** C9. The result of [find_suffix] does not depend on [task_id]: with the
    same prefix, difficulty, randomness and scheduling, any two task ids
    give the same result. *)
Theorem find_suffix_ignores_task_id (env : pow_env) (pref : string) (n : Z)
    (fuel : nat) (task_id task_id' : string) :
  find_suffix env pref n task_id fuel = find_suffix env pref n task_id' fuel.
Proof. reflexivity. Qed.








Example zero_difficulty_demo :
  fs_result (find_suffix demo_env EmptyString 0 "task" 1)
  = Done (Ok (hex (candidate demo_env 1 0)))
  /\ hashes (find_suffix demo_env EmptyString 0 "task" 1) = 2%nat
  /\ fs_stdout (find_suffix demo_env EmptyString 0 "task" 1)
     = [MStarting 0; MFound].
Proof. vm_compute. repeat split; reflexivity. Qed.

(** A prefix that is not hexadecimal text makes every worker raise
    [ValueError], at any difficulty. *)
Example odd_prefix_raises :
  fs_result (find_suffix demo_env "abc" 0 "task" 1) = Done (Raise ValueError).
Proof. vm_compute. reflexivity. Qed.

(** *** The worker count *)

Lemma num_workers_le_32 (env : pow_env) : num_workers env <= 32.
Proof. unfold num_workers. lia. Qed.

(** With two CPUs or more, and when the CPU count is unknown, there is at
    least one worker. *)
Lemma num_workers_ge_1 (env : pow_env) :
  match cpu_count env with
  | Some c => 2 <= c
  | None => True
  end ->
  1 <= num_workers env.
Proof.
  unfold num_workers, py_or. destruct (cpu_count env) as [c|]; [|lia].
  intros Hc. destruct (c =? 0) eqn:E; [apply Z.eqb_eq in E|]; lia.
Qed.

(** C4, at the input where the code departs from the claim: with
    [os.cpu_count() = 1] the worker count is
    [min(32, 1 - 1) = 0], below the floor of 1 that the claim states, and
    the call returns the empty string of line 110. *)
Theorem num_workers_single_cpu :
  cpu_count single_cpu_env = Some 1 /\
  num_workers single_cpu_env = 0 /\
  Z.max 1 (Z.min 32 (1 - 1)) = 1 /\
  fs_result (find_suffix single_cpu_env "c0ffee" 8 "task" 0)
  = Done (Ok EmptyString).
Proof. repeat split; reflexivity. Qed.

(** C10. If the worker count is 0, which is the case when
    [os.cpu_count()] returns 1, [find_suffix] submits no worker, computes
    no digest and returns the empty string; the empty string is not the
    text of a 64-byte suffix, and it need not satisfy the difficulty
    predicate: for the empty prefix at difficulty 1 the digest of the
    decoded concatenation is rejected. *)
Theorem find_suffix_without_workers :
  (forall env, cpu_count env = Some 1 -> num_workers env = 0) /\
  (forall env pref n task_id fuel,
      num_workers env = 0 ->
      fs_futures (find_suffix env pref n task_id fuel) = [] /\
      hashes (find_suffix env pref n task_id fuel) = 0%nat /\
      fs_result (find_suffix env pref n task_id fuel) = Done (Ok EmptyString)) /\
  (forall suffix, List.length suffix = 64%nat -> hex suffix <> EmptyString) /\
  (exists data, fromhex (EmptyString ++ EmptyString) = Ok data /\
                is_valid_hash (sha256 data) 1 = Ok false).
Proof.
  split; [|split; [|split]].
  - intros env Hc. unfold num_workers. rewrite Hc. reflexivity.
  - intros env pref n task_id fuel Hw. unfold hashes, find_suffix.
    rewrite Hw. repeat split; reflexivity.
  - intros [|b suffix] Hlen; [discriminate|]. cbn [hex]. discriminate.
  - exists []. split; [reflexivity | vm_compute; reflexivity].
Qed.

Lemma find_suffix_without_workers_witness :
  fs_futures (find_suffix single_cpu_env "c0ffee" 8 "task" 3) = [] /\
  hashes (find_suffix single_cpu_env "c0ffee" 8 "task" 3) = 0%nat /\
  fs_result (find_suffix single_cpu_env "c0ffee" 8 "task" 3) = Done (Ok EmptyString).
Proof.
  apply (proj1 (proj2 find_suffix_without_workers)
           single_cpu_env "c0ffee"%string 8 "task"%string 3%nat).
  apply (proj1 find_suffix_without_workers single_cpu_env). reflexivity.
Defined.

(** ** Exceptions of the solver *)

Lemma fromhex_raises (e : exn) :
  forall s, fromhex s = Raise e -> e = ValueError.
Proof.
  assert (H : forall s,
             (fromhex s = Raise e -> e = ValueError) /\
             (forall a, fromhex (String a s) = Raise e -> e = ValueError)).
  { induction s as [|x s [IH1 IH2]].
    - split; [discriminate|]. intros a. cbn [fromhex].
      destruct (is_space a); [discriminate|].
      destruct (digit_value a); intros H; injection H as <-; reflexivity.
    - split; [exact (IH2 x)|]. intros a. cbn [fromhex].
      destruct (is_space a); [exact (IH2 x)|].
      destruct (digit_value a); [|intros H; injection H as <-; reflexivity].
      destruct (digit_value x); [|intros H; injection H as <-; reflexivity].
      destruct (fromhex s) as [bs|e'] eqn:Hs; [discriminate|].
      intros H. injection H as ->. apply IH1. reflexivity. }
  intros s. apply (H s).
Qed.

Lemma getitem_raises (h : list byte) (i : Z) (e : exn) :
  getitem h i = Raise e -> e = IndexError.
Proof.
  unfold getitem. destruct (_ || _).
  - intros H. injection H as <-. reflexivity.
  - destruct (nth_error h _); [discriminate|].
    intros H. injection H as <-. reflexivity.
Qed.

Lemma is_valid_hash_raises (h : list byte) (n : Z) (e : exn) :
  is_valid_hash h n = Raise e -> e = IndexError.
Proof.
  unfold is_valid_hash.
  destruct (for_full_bytes h (range (n / 8))) as [[r|]|e'] eqn:Hloop.
  - discriminate.
  - destruct (n mod 8 >? 0); [|discriminate].
    destruct (getitem h (n / 8)) as [b|e'] eqn:Hg; [discriminate|].
    intros H. injection H as <-. exact (getitem_raises _ _ _ Hg).
  - intros H. injection H as <-. revert Hloop.
    induction (range (n / 8)) as [|i rest IH]; cbn [for_full_bytes];
      [discriminate|].
    destruct (getitem h i) as [b|e''] eqn:Hg.
    + destruct (negb (b =? 0)); [discriminate | exact IH].
    + intros H. injection H as <-. exact (getitem_raises _ _ _ Hg).
Qed.

(** Whatever the arguments, [find_suffix] raises nothing but [IndexError]
    and [ValueError]. *)
Lemma find_suffix_raises (env : pow_env) (pref : string) (n : Z)
    (task_id : string) (fuel : nat) (e : exn) :
  fs_result (find_suffix env pref n task_id fuel) = Done (Raise e) ->
  e = IndexError \/ e = ValueError.
Proof.
  unfold find_suffix.
  set (futures := map (fun i => worker env pref n i fuel)
                      (range (num_workers env))).
  destruct (for_as_completed (as_completed env futures)) as [r out] eqn:Hloop.
  cbn [fs_result]. destruct (forallb finished futures); [|discriminate].
  intros ->. apply for_as_completed_raises in Hloop.
  destruct Hloop as [f [Hin Hf]].
  apply (Permutation_in _ (as_completed_perm env futures)) in Hin.
  unfold futures in Hin. apply in_map_iff in Hin.
  destruct Hin as [i [<- _]].
  apply worker_loop_raises in Hf. destruct Hf as [[a Ha]|[data Hd]].
  - right. exact (fromhex_raises e _ Ha).
  - left. exact (is_valid_hash_raises _ _ _ Hd).
Qed.

(** ** Difficulty beyond the length of the digest *)

Lemma for_full_bytes_app (h : list byte) (l1 l2 : list Z) :
  for_full_bytes h (l1 ++ l2) =
  match for_full_bytes h l1 with
  | Ok None => for_full_bytes h l2
  | other => other
  end.
Proof.
  induction l1 as [|i l1 IH]; cbn [app for_full_bytes]; [reflexivity|].
  destruct (getitem h i) as [b|e]; [|reflexivity].
  destruct (negb (b =? 0)); [reflexivity | exact IH].
Qed.

Lemma getitem_beyond (h : list byte) (i : Z) :
  Z.of_nat (List.length h) <= i -> getitem h i = Raise IndexError.
Proof.
  intros Hi. rewrite getitem_nonneg by lia. unfold byte_at.
  assert (Hneg : (i <? 0) = false) by (apply Z.ltb_ge; lia).
  rewrite Hneg.
  assert (Hnone : nth_error h (Z.to_nat i) = None) by (apply nth_error_None; lia).
  rewrite Hnone. reflexivity.
Qed.

(** Over indices that all lie inside the digest the loop never raises: it
    ends early at the first non-zero byte, or runs through. *)
Lemma for_full_bytes_within :
  forall (l pre : list byte),
    for_full_bytes (pre ++ l)
      (map Z.of_nat (seq (List.length pre) (List.length l)))
    = if forallb (fun b => byte_int b =? 0) l then Ok None else Ok (Some false).
Proof.
  induction l as [|b l IH]; intros pre; [reflexivity|].
  cbn [List.length seq map for_full_bytes forallb].
  rewrite getitem_nonneg by lia. unfold byte_at.
  assert (Hneg : (Z.of_nat (List.length pre) <? 0) = false)
    by (apply Z.ltb_ge; lia).
  rewrite Hneg, Nat2Z.id, nth_error_app2, Nat.sub_diag by lia.
  cbn [nth_error option_map].
  destruct (byte_int b =? 0); cbn [negb andb]; [|reflexivity].
  specialize (IH (pre ++ [b])).
  rewrite <- app_assoc, length_app in IH. cbn [app List.length] in IH.
  rewrite Nat.add_1_r in IH. exact IH.
Qed.

(** On a 32-byte digest and at a difficulty above 256, [is_valid_hash]
    never returns [True]: it returns [False] at the first non-zero byte,
    and indexes past the end of an all-zero digest. *)
Lemma is_valid_hash_beyond (h : list byte) (n : Z) :
  List.length h = 32%nat -> 256 < n ->
  is_valid_hash h n
  = if forallb (fun b => byte_int b =? 0) h then Raise IndexError else Ok false.
Proof.
  intros Hlen Hn. unfold is_valid_hash.
  assert (Hq : 32 <= n / 8) by (apply Z.div_le_lower_bound; lia).
  pose proof (Z.div_mod n 8 ltac:(lia)) as Hdm.
  pose proof (Z.mod_pos_bound n 8 ltac:(lia)) as Hrb.
  assert (Hsplit : range (n / 8)
                   = map Z.of_nat (seq 0 32)
                     ++ map Z.of_nat (seq 32 (Z.to_nat (n / 8) - 32))).
  { unfold range. rewrite <- map_app, <- seq_app. f_equal. f_equal. lia. }
  rewrite Hsplit, for_full_bytes_app.
  pose proof (for_full_bytes_within h []) as Hin.
  rewrite Hlen in Hin. cbn [app List.length] in Hin. rewrite Hin.
  destruct (forallb (fun b => byte_int b =? 0) h); [|reflexivity].
  destruct (Z.to_nat (n / 8) - 32)%nat as [|k] eqn:Hk.
  - cbn [seq map for_full_bytes].
    assert (Hrem : (n mod 8 >? 0) = true) by (apply Z.gtb_lt; lia).
    rewrite Hrem, getitem_beyond by lia. reflexivity.
  - cbn [seq map for_full_bytes].
    rewrite getitem_beyond by lia. reflexivity.
Qed.

(** C3, as the code has it.  At a difficulty above 256 [is_valid_hash]
    accepts no SHA-256 digest: it returns [False] on a digest with a
    non-zero byte and raises [IndexError] on the all-zero one.  Hence, with
    at least one worker, [find_suffix] never returns a suffix: however long
    it has run, it is still searching, or it has ended with [IndexError] (a
    worker met the all-zero digest) or with [ValueError] (the prefix is not
    hexadecimal text).  No other error exists in the solver. *)
Theorem find_suffix_beyond_digest_length :
  (forall (h : list byte) (n : Z),
      List.length h = 32%nat -> 256 < n ->
      is_valid_hash h n
      = if forallb (fun b => byte_int b =? 0) h
        then Raise IndexError else Ok false) /\
  (forall (env : pow_env) (pref : string) (n : Z) (task_id : string)
          (fuel : nat),
      256 < n -> 1 <= num_workers env ->
      fs_result (find_suffix env pref n task_id fuel) = Running \/
      fs_result (find_suffix env pref n task_id fuel) = Done (Raise IndexError) \/
      fs_result (find_suffix env pref n task_id fuel) = Done (Raise ValueError)).
Proof.
  split; [exact is_valid_hash_beyond|].
  intros env pref n task_id fuel Hn Hw.
  destruct (fs_result (find_suffix env pref n task_id fuel))
    as [[s|e]|] eqn:Hr.
  - exfalso.
    destruct (find_suffix_from_worker env pref n task_id fuel s Hw Hr)
      as [i [_ Hi]].
    apply worker_loop_returns in Hi.
    destruct Hi as [_ [a [data [_ [_ Hvalid]]]]].
    rewrite (is_valid_hash_beyond _ n (sha256_length data) Hn) in Hvalid.
    destruct (forallb _ _); discriminate.
  - destruct (find_suffix_raises _ _ _ _ _ _ Hr) as [-> | ->]; auto.
  - left. reflexivity.
Qed.

(** The digest of the empty message at difficulty 257. *)
Lemma find_suffix_beyond_digest_length_witness :
  is_valid_hash (sha256 []) 257
  = if forallb (fun b => byte_int b =? 0) (sha256 [])
    then Raise IndexError else Ok false.
Proof.
  apply (proj1 find_suffix_beyond_digest_length (sha256 []) 257).
  - reflexivity.
  - lia.
Defined.

Example all_zero_digest_raises :
  is_valid_hash (repeat x00 32) 257 = Raise IndexError /\
  is_valid_hash (repeat x00 32) 264 = Raise IndexError /\
  is_valid_hash (repeat x00 32) 256 = Ok true /\
  is_valid_hash (sha256 []) 257 = Ok false.
Proof. vm_compute. repeat split; reflexivity. Qed.

Lemma zeros_decode :
  fromhex (EmptyString ++ hex zeros64) = Ok zeros64.
Proof. vm_compute. reflexivity. Qed.

Lemma zeros_rejected : is_valid_hash (sha256 zeros64) 257 = Ok false.
Proof. vm_compute. reflexivity. Qed.

(** The worker of [zeros_env] draws the same rejected candidate for ever. *)
Lemma zeros_worker_runs :
  forall (fuel attempts : nat) (out : list msg),
    t_result (worker_loop zeros_env EmptyString 257 0 fuel attempts out) = Running.
Proof.
  induction fuel as [|fuel IH]; intros attempts out; [reflexivity|].
  cbn [worker_loop].
  change (candidate zeros_env 0 attempts) with zeros64.
  rewrite zeros_decode, zeros_rejected. apply IH.
Qed.

(** C3 as stated fails: at difficulty 257, with the empty prefix and a
    generator that only yields 0, the call never ends, neither with an
    error nor otherwise, however long it runs. *)
Lemma find_suffix_257_runs_for_ever :
  ~ exists fuel,
      fs_result (find_suffix zeros_env EmptyString 257 "task" fuel) <> Running.
Proof.
  intros [fuel H]. apply H. unfold find_suffix.
  destruct (for_as_completed _) as [r out].
  change (range (num_workers zeros_env)) with [0].
  cbn [map forallb fs_result]. unfold finished, worker.
  rewrite zeros_worker_runs. reflexivity.
Qed.

(** ** Traces of the main thread *)

Lemma processed_app (t1 t2 : list event) :
  processed (t1 ++ t2) = processed t1 ++ processed t2.
Proof.
  induction t1 as [|e t1 IH]; [reflexivity|].
  destruct e as [m| |]; try exact IH.
  destruct m; cbn [app processed]; rewrite ?IH; reflexivity.
Qed.

Lemma bind_ok {A B : Type} (m : io A) (k : A -> io B) (a : A) (t : list event) :
  m = (Done (Ok a), t) -> bind m k = (fst (k a), t ++ snd (k a)).
Proof.
  intros ->. unfold bind. destruct (k a). reflexivity.
Qed.

Lemma quiet_bind {A B : Type} (m : io A) (k : A -> io B) :
  quiet m -> (forall a, quiet (k a)) -> quiet (bind m k).
Proof.
  unfold quiet. intros Hm Hk. destruct m as [[[a|e]|] t]; cbn [bind snd] in *;
    try exact Hm.
  specialize (Hk a). destruct (k a) as [r t']. cbn [snd] in *.
  rewrite processed_app, Hm, Hk. reflexivity.
Qed.

Lemma quiet_try {A : Type} (body : io A) (handler : exn -> io A) :
  quiet body -> (forall e, quiet (handler e)) ->
  quiet (try_except_Exception body handler).
Proof.
  unfold quiet. intros Hb Hh.
  destruct body as [[[a|e]|] t]; cbn [try_except_Exception snd] in *;
    try exact Hb.
  destruct (is_Exception e); [|exact Hb].
  specialize (Hh e). destruct (handler e) as [r t']. cbn [snd] in *.
  rewrite processed_app, Hb, Hh. reflexivity.
Qed.

Lemma quiet_getkey {A : Type} (v : option A) : quiet (getkey v).
Proof. destruct v; reflexivity. Qed.

Lemma quiet_solve (w : world) (fe : file_env) (pref : string) (n : Z)
    (task_id : string) : quiet (solve w fe pref n task_id).
Proof.
  unfold quiet, solve, find_suffix. cbn [snd].
  match goal with
  | |- context [for_as_completed ?fs] =>
      destruct (for_as_completed_out fs) as [H|H];
      destruct (for_as_completed fs) as [r out]
  end; cbn [snd fs_stdout] in *; subst out; reflexivity.
Qed.

(** One step of a proof that a computation prints no
    [Processing file: ...] line. *)
Ltac quiet_step :=
  match goal with
  | |- quiet (bind _ _) => apply quiet_bind; [|intros ?]
  | |- quiet (getkey _) => apply quiet_getkey
  | |- quiet (solve _ _ _ _ _) => apply quiet_solve
  | |- quiet (if ?c then _ else _) => destruct c
  | |- quiet (match ?x with _ => _ end) => destruct x
  | |- quiet _ => reflexivity
  end.

Lemma quiet_get_challenge (endpoint : string) (fe : file_env) :
  quiet (get_challenge endpoint fe).
Proof. unfold get_challenge. repeat quiet_step. Qed.

Lemma quiet_upload_image (w : world) (endpoint : string) (fe : file_env)
    (path task_id suff : string) :
  quiet (upload_image w endpoint fe path task_id suff).
Proof. unfold upload_image. repeat quiet_step. Qed.

(** [process_file] prints no [Processing file: ...] line: those are printed
    by [main] alone, one per iteration. *)
Lemma quiet_process_file (w : world) (endpoint : string) (i : nat)
    (path : string) : quiet (process_file w endpoint i path).
Proof.
  unfold process_file. destruct (negb (isfile w path)); [reflexivity|].
  apply quiet_try; [|intros e; reflexivity].
  unfold process_file_body.
  repeat first [apply quiet_get_challenge | apply quiet_upload_image | quiet_step].
Qed.

(** *** Computations that end without [sys.exit] *)










(** ** Claims about the files *)

(** C6, as the code has it.  For every path for which [os.path.isfile] is
    false (nothing there, or not a regular file) [process_file] prints the
    [does not exist] error and returns the empty string, and that is all it
    does: no request is sent for that file. *)
Theorem process_file_missing_file (w : world) (endpoint : string) (i : nat)
    (path : string) :
  isfile w path = false ->
  process_file w endpoint i path
  = (Done (Ok EmptyString), [Print (MNotExist path)]) /\
  filter is_network (snd (process_file w endpoint i path)) = [].
Proof.
  intros Hfile. unfold process_file. rewrite Hfile. split; reflexivity.
Qed.

Lemma process_file_missing_file_witness :
  process_file mixed_world "https://host" 3 "missing.png"
  = (Done (Ok EmptyString), [Print (MNotExist "missing.png")]) /\
  filter is_network
    (snd (process_file mixed_world "https://host" 3 "missing.png")) = [].
Proof.
  apply (process_file_missing_file mixed_world "https://host" 3 "missing.png").
  reflexivity.
Defined.

(** C6 as stated fails: a regular file that cannot be opened is not a
    readable file, yet [process_file] fetches a challenge for it and runs
    the search; the failure shows only when [upload_image] opens the file,
    and it is reported by the handler of line 174, not as a missing
    file. *)
Lemma unreadable_file_contacts_server :
  isfile locked_world "locked.png" && readable locked_world "locked.png" = false /\
  process_file locked_world "https://host" 0 "locked.png"
  = (Done (Ok EmptyString),
     [HttpGet "https://host/api2/challenge";
      Print (MText "challenge");
      Print (MChallenge 8 "203.0.113.7");
      Print (MStarting 8);
      Print MFound;
      Print (MUploadingImage "locked.png");
      Print (MError "locked.png" OSError)]) /\
  filter is_network
    (snd (process_file locked_world "https://host" 0 "locked.png"))
  = [HttpGet "https://host/api2/challenge"].
Proof. vm_compute. repeat split; reflexivity. Qed.

Lemma print_links_trace (upload_results : list (string * string)) :
  print_links upload_results
  = (Done (Ok tt), map (fun pu => Print (MText (snd pu))) upload_results).
Proof.
  induction upload_results as [|[path url] rest IH]; [reflexivity|].
  cbn [print_links]. rewrite (bind_ok _ _ tt [Print (MText url)] eq_refl), IH.
  reflexivity.
Qed.

Lemma successes_length (w : world) (endpoint : string) :
  forall (image_paths : list string) (i : nat),
    (List.length (successes w endpoint i image_paths)
     <= List.length image_paths)%nat.
Proof.
  induction image_paths as [|path rest IH]; intros i;
    cbn [successes List.length]; [lia|].
  pose proof (IH (S i)).
  destruct (fst (process_file w endpoint i path)) as [[url|e]|];
    try lia.
  destruct (truthy url); cbn [List.length]; lia.
Qed.





(** What that run does and reports: the second and third files fail, the
    fourth is missing, and the first and the fifth are still uploaded. *)
Example main_mixed_run :
  successes mixed_world "https://host" 0
    ["a.png"; "b.png"; "c.png"; "missing.png"; "e.png"]%string
  = [("a.png", "https://img.example/1.png");
     ("e.png", "https://img.example/1.png")]%string /\
  filter is_network
    (loop_trace mixed_world "https://host" 0
       ["a.png"; "b.png"; "c.png"; "missing.png"; "e.png"]%string)
  = [HttpGet "https://host/api2/challenge";
       HttpPost "https://host/api2/upload" "a.png" "task-1"
         (hex (candidate demo_env 1 2));
       HttpGet "https://host/api2/challenge";
       HttpGet "https://host/api2/challenge";
       HttpPost "https://host/api2/upload" "c.png" "task-1"
         (hex (candidate demo_env 1 2));
       HttpGet "https://host/api2/challenge";
       HttpPost "https://host/api2/upload" "e.png" "task-1"
         (hex (candidate demo_env 1 2))].
Proof. vm_compute. split; reflexivity. Qed.

Example main_mixed_summary :
  In (Print (MSummary 2 5))
     (snd (main mixed_world "https://host"
             ["a.png"; "b.png"; "c.png"; "missing.png"; "e.png"]%string)).
Proof. vm_compute. tauto. Qed.

(** Conversely, for a file that exists, an answer to the challenge request
    with a status other than 200 or with [success: false] makes
    [process_file] leave by [SystemExit(1)], which [main] does not catch. *)
Lemma process_file_exits_on_challenge (w : world) (endpoint : string) (i : nat)
    (path : string) :
  isfile w path = true ->
  challenge_exits (per_file w i) = true ->
  fst (process_file w endpoint i path) = Done (Raise (SystemExit 1)).
Proof.
  intros Hfile. unfold process_file, challenge_exits. rewrite Hfile.
  unfold process_file_body, get_challenge. cbn [negb].
  destruct (get_reply (per_file w i)) as [[status body [data|]]| |];
    cbn; try discriminate.
  - destruct (status =? 200); cbn; [|reflexivity].
    destruct (c_success data); cbn; [discriminate | reflexivity].
  - destruct (status =? 200); cbn; [discriminate | reflexivity].
Qed.


(** The other two calls of [sys.exit] have the same effect. *)
Example refused_challenge_aborts :
  fst (main (mkWorld (fun _ => true) (fun _ => true)
               (fun i => match i with O => refused_file | _ => good_file end) 5)
         "https://host" ["a.png"; "b.png"]%string)
  = Done (Raise (SystemExit 1)).
Proof. vm_compute. reflexivity. Qed.

Example rejected_upload_aborts :
  fst (main (mkWorld (fun _ => true) (fun _ => true)
               (fun i => match i with O => rejected_file | _ => good_file end) 5)
         "https://host" ["a.png"; "b.png"]%string)
  = Done (Raise (SystemExit 1)).
Proof. vm_compute. reflexivity. Qed.

(** * Further properties of the code *)

(** ** The difficulty predicate as a count of leading zero bits *)

Lemma leading_zeros_nonneg (h : list byte) : 0 <= leading_zeros h.
Proof.
  induction h as [|b h IH]; cbn [leading_zeros]; [lia|].
  pose proof (byte_int_range b) as Hb.
  destruct (byte_int b =? 0) eqn:E; [lia|].
  apply Z.eqb_neq in E.
  assert (Z.log2 (byte_int b) < 8) by (apply Z.log2_lt_pow2; lia).
  lia.
Qed.

Lemma leading_zeros_le (h : list byte) :
  leading_zeros h <= 8 * Z.of_nat (List.length h).
Proof.
  induction h as [|b h IH]; cbn [leading_zeros List.length]; [lia|].
  pose proof (byte_int_range b) as Hb.
  destruct (byte_int b =? 0) eqn:E; [lia|].
  pose proof (Z.log2_nonneg (byte_int b)). lia.
Qed.

Lemma digest_bit_head (b : byte) (rest : list byte) (k : Z) :
  0 <= k < 8 ->
  digest_bit (b :: rest) k = Some (Z.testbit (byte_int b) (7 - k)).
Proof.
  intros Hk. replace k with (8 * 0 + k) at 1 by lia.
  rewrite digest_bit_at by lia. reflexivity.
Qed.

Lemma digest_bit_tail (b : byte) (rest : list byte) (k : Z) :
  8 <= k -> digest_bit (b :: rest) k = digest_bit rest (k - 8).
Proof.
  intros Hk.
  pose proof (Z.div_mod k 8 ltac:(lia)) as Hdm.
  pose proof (Z.mod_pos_bound k 8 ltac:(lia)) as Hrb.
  assert (Hq : 1 <= k / 8) by (apply Z.div_le_lower_bound; lia).
  replace (k - 8) with (8 * (k / 8 - 1) + k mod 8) by lia.
  rewrite Hdm at 1. rewrite !digest_bit_at by lia.
  unfold byte_at.
  assert (H1 : (k / 8 <? 0) = false) by (apply Z.ltb_ge; lia).
  assert (H2 : (k / 8 - 1 <? 0) = false) by (apply Z.ltb_ge; lia).
  rewrite H1, H2.
  replace (Z.to_nat (k / 8)) with (S (Z.to_nat (k / 8 - 1))) by lia.
  reflexivity.
Qed.

(** The first [n] bits of a byte sequence are zero exactly when [n] is at
    most its number of leading zero bits. *)
Lemma leading_zero_bits_count :
  forall (h : list byte) (n : Z),
    0 <= n -> (leading_zero_bits h n <-> n <= leading_zeros h).
Proof.
  induction h as [|b h IH]; intros n Hn.
  - cbn [leading_zeros]. split.
    + intros H. destruct (Z_le_gt_dec n 0) as [|Hpos]; [assumption|].
      specialize (H 0 ltac:(lia)). discriminate.
    + intros Hle k Hk. lia.
  - cbn [leading_zeros]. pose proof (byte_int_range b) as Hb.
    pose proof (leading_zeros_nonneg h) as Hlz.
    destruct (byte_int b =? 0) eqn:E.
    + apply Z.eqb_eq in E. split.
      * intros H. destruct (Z_le_gt_dec n 8) as [|Hbig]; [lia|].
        assert (Hrest : leading_zero_bits h (n - 8)).
        { intros k Hk. rewrite <- (H (k + 8) ltac:(lia)).
          rewrite digest_bit_tail by lia. f_equal. lia. }
        apply IH in Hrest; lia.
      * intros Hle k Hk. destruct (Z_lt_ge_dec k 8) as [Hlt|Hge].
        -- rewrite digest_bit_head, E, Z.bits_0 by lia. reflexivity.
        -- rewrite digest_bit_tail by lia.
           apply (proj2 (IH (n - 8) ltac:(lia))); lia.
    + apply Z.eqb_neq in E.
      assert (Hlog : 0 <= Z.log2 (byte_int b) < 8).
      { split; [apply Z.log2_nonneg | apply Z.log2_lt_pow2; lia]. }
      split.
      * intros H. destruct (Z_le_gt_dec n (7 - Z.log2 (byte_int b)))
          as [|Hbig]; [assumption|].
        specialize (H (7 - Z.log2 (byte_int b)) ltac:(lia)).
        rewrite digest_bit_head in H by lia.
        replace (7 - (7 - Z.log2 (byte_int b))) with (Z.log2 (byte_int b))
          in H by lia.
        rewrite Z.bit_log2 in H by lia. discriminate.
      * intros Hle k Hk. rewrite digest_bit_head by lia. f_equal.
        apply Z.bits_above_log2; lia.
Qed.

Lemma getitem_within (h : list byte) (i : Z) :
  0 <= i < Z.of_nat (List.length h) -> exists b, getitem h i = Ok b.
Proof.
  intros Hi. rewrite getitem_nonneg by lia. unfold byte_at.
  assert (Hneg : (i <? 0) = false) by (apply Z.ltb_ge; lia).
  rewrite Hneg.
  destruct (nth_error h (Z.to_nat i)) as [b|] eqn:Hnth.
  - eexists. reflexivity.
  - apply nth_error_None in Hnth. lia.
Qed.

Lemma for_full_bytes_no_raise (h : list byte) (indices : list Z) :
  Forall (fun i => 0 <= i < Z.of_nat (List.length h)) indices ->
  exists r, for_full_bytes h indices = Ok r.
Proof.
  induction indices as [|i rest IH]; intros Hall; cbn [for_full_bytes].
  - eexists. reflexivity.
  - inversion Hall as [|? ? Hi Hrest]; subst.
    destruct (getitem_within h i Hi) as [b ->].
    destruct (negb (b =? 0)); [eexists; reflexivity | exact (IH Hrest)].
Qed.

(** X1. Within the bit length of the digest [is_valid_hash] never raises:
    it returns whether [n] is at most the number of leading zero bits of
    the digest, as its docstring says. *)
Theorem is_valid_hash_leading_zeros (h : list byte) (n : Z) :
  0 <= n <= 8 * Z.of_nat (List.length h) ->
  is_valid_hash h n = Ok (n <=? leading_zeros h).
Proof.
  intros Hn.
  pose proof (Z.div_mod n 8 ltac:(lia)) as Hdm.
  pose proof (Z.mod_pos_bound n 8 ltac:(lia)) as Hrb.
  assert (Hbool : exists b, is_valid_hash h n = Ok b).
  { unfold is_valid_hash.
    destruct (for_full_bytes_no_raise h (range (n / 8))) as [r Hr].
    { apply Forall_forall. intros i Hi. apply in_range in Hi. lia. }
    rewrite Hr. destruct r as [r|]; [eexists; reflexivity|].
    destruct (n mod 8 >? 0) eqn:Hrem; [|eexists; reflexivity].
    rewrite Z.gtb_ltb in Hrem. apply Z.ltb_lt in Hrem.
    assert (0 <= n / 8) by (apply Z.div_pos; lia).
    destruct (getitem_within h (n / 8) ltac:(lia)) as [b ->].
    eexists. reflexivity. }
  destruct Hbool as [b Hb]. rewrite Hb. f_equal.
  pose proof (is_valid_hash_bits h n ltac:(lia)) as Hbits.
  pose proof (leading_zero_bits_count h n ltac:(lia)) as Hcount.
  rewrite Hb in Hbits.
  destruct b; symmetry.
  - apply Z.leb_le. apply Hcount, Hbits. reflexivity.
  - apply Z.leb_gt. destruct (Z_le_gt_dec n (leading_zeros h)) as [Hle|]; [|lia].
    apply Hcount, Hbits in Hle. discriminate.
Qed.

(** The digest 00 0f ff has 12 leading zero bits. *)
Lemma is_valid_hash_leading_zeros_witness :
  is_valid_hash [x00; x0f; xff] 12 = Ok (12 <=? leading_zeros [x00; x0f; xff]) /\
  leading_zeros [x00; x0f; xff] = 12.
Proof.
  split; [|reflexivity].
  apply (is_valid_hash_leading_zeros [x00; x0f; xff] 12).
  cbn [List.length]. lia.
Defined.

(** X2. Beyond the bit length of the digest [is_valid_hash] never returns
    [True]: it returns [False] at the first non-zero byte, and on a
    sequence of zero bytes (the empty one included) it indexes past the end
    and raises [IndexError]. *)
Theorem is_valid_hash_past_the_end (h : list byte) (n : Z) :
  8 * Z.of_nat (List.length h) < n ->
  is_valid_hash h n = if all_zero h then Raise IndexError else Ok false.
Proof.
  intros Hn. unfold is_valid_hash, all_zero.
  set (L := List.length h) in *.
  assert (Hq : Z.of_nat L <= n / 8) by (apply Z.div_le_lower_bound; lia).
  pose proof (Z.div_mod n 8 ltac:(lia)) as Hdm.
  pose proof (Z.mod_pos_bound n 8 ltac:(lia)) as Hrb.
  assert (Hsplit : range (n / 8)
                   = map Z.of_nat (seq 0 L)
                     ++ map Z.of_nat (seq L (Z.to_nat (n / 8) - L))).
  { unfold range. rewrite <- map_app.
    replace L with (0 + L)%nat at 2 by lia. rewrite <- seq_app.
    do 2 f_equal. lia. }
  rewrite Hsplit, for_full_bytes_app.
  pose proof (for_full_bytes_within h []) as Hin.
  cbn [app List.length] in Hin. fold L in Hin. rewrite Hin.
  destruct (forallb (fun b => byte_int b =? 0) h); [|reflexivity].
  destruct (Z.to_nat (n / 8) - L)%nat as [|k] eqn:Hk.
  - cbn [seq map for_full_bytes].
    assert (Hrem : (n mod 8 >? 0) = true) by (apply Z.gtb_lt; lia).
    rewrite Hrem, getitem_beyond by (fold L; lia). reflexivity.
  - cbn [seq map for_full_bytes].
    rewrite getitem_beyond by (fold L; lia). reflexivity.
Qed.

(** Difficulty 9 on a single zero byte, and on a single non-zero byte. *)
Lemma is_valid_hash_past_the_end_witness :
  is_valid_hash [x00] 9 = Raise IndexError /\ is_valid_hash [x01] 9 = Ok false.
Proof.
  split.
  - apply (is_valid_hash_past_the_end [x00] 9). cbn [List.length]. lia.
  - apply (is_valid_hash_past_the_end [x01] 9). cbn [List.length]. lia.
Defined.

(** X3. A negative difficulty is not rejected, and it never looks at the
    leading bytes.  The loop over the full bytes is empty.  If [n] is a
    multiple of 8 the result is [True] for every digest; otherwise line 70
    indexes the digest from its end: the byte tested is the one at
    [len + n // 8], against the mask for [n % 8] bits, and when that index
    falls before the start the call raises [IndexError]. *)
Theorem is_valid_hash_negative_difficulty (h : list byte) (n : Z) :
  n < 0 ->
  (n mod 8 = 0 -> is_valid_hash h n = Ok true) /\
  (n mod 8 <> 0 -> - (8 * Z.of_nat (List.length h)) <= n ->
   exists b,
     nth_error h (Z.to_nat (Z.of_nat (List.length h) + n / 8)) = Some b /\
     is_valid_hash h n
     = Ok (Z.land (byte_int b)
                  (Z.land (Z.shiftl 255 (8 - n mod 8)) 255) =? 0)) /\
  (n mod 8 <> 0 -> n < - (8 * Z.of_nat (List.length h)) ->
   is_valid_hash h n = Raise IndexError).
Proof.
  intros Hn.
  pose proof (Z.mod_pos_bound n 8 ltac:(lia)) as Hrb.
  pose proof (Z.div_mod n 8 ltac:(lia)) as Hdm.
  assert (Hq : n / 8 < 0) by (apply Z.div_lt_upper_bound; lia).
  assert (Hrange : range (n / 8) = []).
  { unfold range. replace (Z.to_nat (n / 8)) with 0%nat by lia. reflexivity. }
  unfold is_valid_hash. rewrite Hrange. cbn [for_full_bytes].
  split; [|split].
  - intros Hrem. rewrite Hrem. reflexivity.
  - intros Hrem Hlow.
    assert (Hgt : (n mod 8 >? 0) = true) by (apply Z.gtb_lt; lia).
    rewrite Hgt. unfold getitem.
    assert (Hneg : (n / 8 <? 0) = true) by (apply Z.ltb_lt; lia).
    rewrite Hneg.
    assert (Hj : 0 <= n / 8 + Z.of_nat (List.length h)
                 < Z.of_nat (List.length h)).
    { split; [|lia].
      assert (- Z.of_nat (List.length h) <= n / 8)
        by (apply Z.div_le_lower_bound; lia).
      lia. }
    assert (H1 : (n / 8 + Z.of_nat (List.length h) <? 0) = false)
      by (apply Z.ltb_ge; lia).
    assert (H2 : (Z.of_nat (List.length h)
                  <=? n / 8 + Z.of_nat (List.length h)) = false)
      by (apply Z.leb_gt; lia).
    rewrite H1, H2. cbn [orb].
    replace (Z.of_nat (List.length h) + n / 8)
      with (n / 8 + Z.of_nat (List.length h)) by lia.
    destruct (nth_error h (Z.to_nat (n / 8 + Z.of_nat (List.length h))))
      as [b|] eqn:Hnth.
    + exists b. split; reflexivity.
    + apply nth_error_None in Hnth. lia.
  - intros Hrem Hlow.
    assert (Hgt : (n mod 8 >? 0) = true) by (apply Z.gtb_lt; lia).
    rewrite Hgt. unfold getitem.
    assert (Hneg : (n / 8 <? 0) = true) by (apply Z.ltb_lt; lia).
    rewrite Hneg.
    assert (H1 : (n / 8 + Z.of_nat (List.length h) <? 0) = true).
    { apply Z.ltb_lt.
      assert (n / 8 < - Z.of_nat (List.length h))
        by (apply Z.div_lt_upper_bound; lia).
      lia. }
    rewrite H1. reflexivity.
Qed.

(** Difficulty -3 on the digest 00 ff tests the top five bits of its last
    byte. *)
Lemma is_valid_hash_negative_difficulty_witness :
  exists b,
    nth_error [x00; xff] (Z.to_nat (Z.of_nat 2 + -3 / 8)) = Some b /\
    is_valid_hash [x00; xff] (-3)
    = Ok (Z.land (byte_int b)
                 (Z.land (Z.shiftl 255 (8 - -3 mod 8)) 255) =? 0).
Proof.
  apply (proj1 (proj2 (is_valid_hash_negative_difficulty [x00; xff] (-3)
                         ltac:(lia)))).
  - discriminate.
  - cbn [List.length]. lia.
Defined.

(** ** The worker loop *)

Lemma is_valid_hash_within (h : list byte) (n : Z) :
  0 <= n <= 8 * Z.of_nat (List.length h) ->
  exists b, is_valid_hash h n = Ok b.
Proof.
  intros Hn.
  pose proof (Z.div_mod n 8 ltac:(lia)) as Hdm.
  pose proof (Z.mod_pos_bound n 8 ltac:(lia)) as Hrb.
  unfold is_valid_hash.
  destruct (for_full_bytes_no_raise h (range (n / 8))) as [r Hr].
  { apply Forall_forall. intros i Hi. apply in_range in Hi. lia. }
  rewrite Hr. destruct r as [r|]; [eexists; reflexivity|].
  destruct (n mod 8 >? 0) eqn:Hrem; [|eexists; reflexivity].
  rewrite Z.gtb_ltb in Hrem. apply Z.ltb_lt in Hrem.
  assert (0 <= n / 8) by (apply Z.div_pos; lia).
  destruct (getitem_within h (n / 8) ltac:(lia)) as [b ->].
  eexists. reflexivity.
Qed.

(** Iterations whose candidates are rejected only move the loop on. *)
Lemma worker_loop_skip (env : pow_env) (pref : string) (p : list byte)
    (n worker_id : Z) :
  fromhex pref = Ok p ->
  forall (k fuel attempts : nat) (out : list msg),
    (forall a, (attempts <= a < attempts + k)%nat ->
               is_valid_hash (sha256 (p ++ candidate env worker_id a)) n
               = Ok false) ->
    exists out',
      worker_loop env pref n worker_id (k + fuel) attempts out
      = worker_loop env pref n worker_id fuel (attempts + k) out'.
Proof.
  intros Hpref. induction k as [|k IH]; intros fuel attempts out Hrej.
  - exists out. rewrite Nat.add_0_r. reflexivity.
  - cbn [Nat.add worker_loop].
    rewrite (fromhex_app_ok _ _ _ Hpref), (Hrej attempts) by lia.
    match goal with
    | |- context [worker_loop _ _ _ _ (k + fuel) (S attempts) ?o] =>
        destruct (IH fuel (S attempts) o) as [out' Hout]
    end.
    { intros a Ha. apply Hrej. lia. }
    exists out'. rewrite Hout. f_equal. lia.
Qed.

(** X4. A worker returns the first of its candidates that
    [is_valid_hash] accepts: if the prefix decodes, the candidates of
    attempts [0 .. a-1] are rejected and that of attempt [a] is accepted,
    then after more than [a] iterations the worker has returned
    [(True, suff)] with [suff] the text of candidate [a], having computed
    [a + 1] digests, each of the prefix bytes followed by 64 candidate
    bytes. *)
Theorem worker_returns_first_accepted (env : pow_env) (pref : string)
    (p : list byte) (n worker_id : Z) (a fuel : nat) :
  fromhex pref = Ok p ->
  (forall a', (a' < a)%nat ->
              is_valid_hash (sha256 (p ++ candidate env worker_id a')) n
              = Ok false) ->
  is_valid_hash (sha256 (p ++ candidate env worker_id a)) n = Ok true ->
  (a < fuel)%nat ->
  t_result (worker env pref n worker_id fuel)
  = Done (Ok (true, hex (candidate env worker_id a))) /\
  t_hashes (worker env pref n worker_id fuel) = S a.
Proof.
  intros Hpref Hrej Hacc Hfuel. unfold worker.
  replace fuel with (a + S (fuel - S a))%nat by lia.
  destruct (worker_loop_skip env pref p n worker_id Hpref a
              (S (fuel - S a)) 0 []) as [out' ->].
  { intros a' Ha'. apply Hrej. lia. }
  cbn [Nat.add worker_loop].
  rewrite (fromhex_app_ok _ _ _ Hpref), Hacc. split; reflexivity.
Qed.

(** Worker 0 of the sample environment on prefix c0ffee at difficulty 8:
    four candidates rejected, the fifth accepted. *)
Lemma worker_returns_first_accepted_witness :
  t_result (worker demo_env "c0ffee" 8 0 7)
  = Done (Ok (true, hex (candidate demo_env 0 4))) /\
  t_hashes (worker demo_env "c0ffee" 8 0 7) = 5%nat.
Proof.
  apply (worker_returns_first_accepted demo_env "c0ffee"
           [xc0; xff; xee] 8 0 4 7).
  - reflexivity.
  - intros a' Ha'.
    do 4 (destruct a' as [|a']; [vm_compute; reflexivity|]). lia.
  - vm_compute. reflexivity.
  - lia.
Defined.

Lemma fromhex_app_raises (pref : string) (e : exn) (c : list byte) :
  fromhex pref = Raise e -> fromhex (pref ++ hex c) = Raise ValueError.
Proof.
  intros Hpref.
  destruct (fromhex (pref ++ hex c)) as [bs|e'] eqn:Hc.
  - destruct (fromhex_app_hex _ _ _ Hc) as [p [Hp _]]. congruence.
  - f_equal. exact (fromhex_raises e' _ Hc).
Qed.

(** X5. A prefix that [bytes.fromhex] rejects on its own (an odd number of
    digits, a character that is neither a digit nor white space) is
    rejected in front of every candidate: the worker raises [ValueError] in
    its first iteration, before any digest is computed and before anything
    is printed. *)
Theorem worker_bad_prefix (env : pow_env) (pref : string) (e : exn)
    (n worker_id : Z) (fuel : nat) :
  fromhex pref = Raise e ->
  worker env pref n worker_id (S fuel)
  = mkThread (Done (Raise ValueError)) 0 [].
Proof.
  intros Hpref. unfold worker. cbn [worker_loop].
  rewrite (fromhex_app_raises pref e _ Hpref). reflexivity.
Qed.

Lemma worker_bad_prefix_witness :
  worker demo_env "abc" 8 0 1 = mkThread (Done (Raise ValueError)) 0 [].
Proof.
  apply (worker_bad_prefix demo_env "abc" ValueError 8 0 0).
  reflexivity.
Defined.

Lemma progress_lines_succ (worker_id : Z) (count : nat) :
  progress_lines worker_id (S count)
  = progress_lines worker_id count
    ++ [MTried worker_id (10000 * Z.of_nat (S count))].
Proof.
  unfold progress_lines. rewrite seq_S, map_app. reflexivity.
Qed.

Lemma worker_loop_progress (env : pow_env) (pref : string) (n worker_id : Z) :
  forall (fuel attempts : nat),
    exists m,
      t_stdout (worker_loop env pref n worker_id fuel attempts
                  (progress_lines worker_id
                     (Z.to_nat (Z.of_nat attempts / 10000))))
      = progress_lines worker_id m /\
      10000 * Z.of_nat m
      <= Z.of_nat
           (t_hashes (worker_loop env pref n worker_id fuel attempts
                        (progress_lines worker_id
                           (Z.to_nat (Z.of_nat attempts / 10000)))))
      <= 10000 * Z.of_nat m + 10000.
Proof.
  induction fuel as [|fuel IH]; intros attempts.
  - exists (Z.to_nat (Z.of_nat attempts / 10000)).
    cbn [worker_loop t_stdout t_hashes]. split; [reflexivity|].
    pose proof (Z.div_mod (Z.of_nat attempts) 10000 ltac:(lia)).
    pose proof (Z.mod_pos_bound (Z.of_nat attempts) 10000 ltac:(lia)).
    assert (0 <= Z.of_nat attempts / 10000) by (apply Z.div_pos; lia).
    lia.
  - cbn [worker_loop].
    pose proof (Z.div_mod (Z.of_nat attempts) 10000 ltac:(lia)) as Hdm.
    pose proof (Z.mod_pos_bound (Z.of_nat attempts) 10000 ltac:(lia)) as Hrb.
    assert (Hq : 0 <= Z.of_nat attempts / 10000) by (apply Z.div_pos; lia).
    destruct (fromhex (pref ++ hex (candidate env worker_id attempts)))
      as [data|e].
    + destruct (is_valid_hash (sha256 data) n) as [[|]|e].
      * exists (Z.to_nat (Z.of_nat attempts / 10000)).
        cbn [t_stdout t_hashes]. split; [reflexivity | lia].
      * pose proof (Z.div_mod (Z.of_nat (S attempts)) 10000 ltac:(lia)) as Hdm'.
        pose proof (Z.mod_pos_bound (Z.of_nat (S attempts)) 10000 ltac:(lia))
          as Hrb'.
        assert (Hq' : 0 <= Z.of_nat (S attempts) / 10000)
          by (apply Z.div_pos; lia).
        destruct (Z.of_nat (S attempts) mod 10000 =? 0) eqn:Hmod.
        -- apply Z.eqb_eq in Hmod.
           assert (Hnext : Z.to_nat (Z.of_nat (S attempts) / 10000)
                           = S (Z.to_nat (Z.of_nat attempts / 10000))) by lia.
           specialize (IH (S attempts)). rewrite Hnext in IH.
           rewrite progress_lines_succ in IH.
           replace (10000 * Z.of_nat (S (Z.to_nat (Z.of_nat attempts / 10000))))
             with (Z.of_nat (S attempts)) in IH by lia.
           exact IH.
        -- apply Z.eqb_neq in Hmod.
           assert (Hsame : Z.to_nat (Z.of_nat (S attempts) / 10000)
                           = Z.to_nat (Z.of_nat attempts / 10000)) by lia.
           specialize (IH (S attempts)). rewrite Hsame in IH. exact IH.
      * exists (Z.to_nat (Z.of_nat attempts / 10000)).
        cbn [t_stdout t_hashes]. split; [reflexivity | lia].
    + exists (Z.to_nat (Z.of_nat attempts / 10000)).
      cbn [t_stdout t_hashes]. split; [reflexivity | lia].
Qed.

(** X6. The progress lines of a worker: however long it has run, what it
    has printed is one line [Thread i has tried k times...] for each of
    [k = 10000, 20000, ..., 10000 * m], in this order and nothing else,
    where [10000 * m] is at most the number of digests it has computed and
    that number is at most [10000 * m + 10000].  In particular a worker
    prints nothing during its first 9999 attempts. *)
Theorem worker_progress_lines (env : pow_env) (pref : string)
    (n worker_id : Z) (fuel : nat) :
  exists m,
    t_stdout (worker env pref n worker_id fuel) = progress_lines worker_id m /\
    10000 * Z.of_nat m
    <= Z.of_nat (t_hashes (worker env pref n worker_id fuel))
    <= 10000 * Z.of_nat m + 10000.
Proof.
  exact (worker_loop_progress env pref n worker_id fuel 0).
Qed.

(** ** The solver as a whole *)

Lemma forallb_false_exists {A : Type} (f : A -> bool) (l : list A) :
  forallb f l = false -> exists x, In x l /\ f x = false.
Proof.
  induction l as [|x l IH]; cbn [forallb]; [discriminate|].
  destruct (f x) eqn:Hx; cbn [andb].
  - intros H. destruct (IH H) as [y [Hin Hy]]. exists y. split; [right|]; assumption.
  - intros _. exists x. split; [left; reflexivity | exact Hx].
Qed.

Lemma for_as_completed_running (fs : list thread) :
  fst (for_as_completed fs) = Running ->
  exists f, In f fs /\ t_result f = Running.
Proof.
  induction fs as [|f rest IH]; cbn [for_as_completed]; [discriminate|].
  destruct (t_result f) as [[[success suff]|e]|] eqn:Hf; try discriminate.
  - destruct success; [discriminate|].
    intros H. destruct (IH H) as [f' [Hin Hf']].
    exists f'. split; [right|]; assumption.
  - intros _. exists f. split; [left; reflexivity | exact Hf].
Qed.

(** X7. [find_suffix] ends only when every worker has: the call is still
    running exactly when one of its workers is, whether or not another
    worker has already returned a suffix.  (The [return] of line 108 leaves
    the [with] block of line 100, whose exit joins every worker thread.) *)
Theorem find_suffix_waits_for_every_worker (env : pow_env) (pref : string)
    (n : Z) (task_id : string) (fuel : nat) :
  fs_result (find_suffix env pref n task_id fuel) = Running <->
  exists i, 0 <= i < num_workers env /\
            t_result (worker env pref n i fuel) = Running.
Proof.
  unfold find_suffix.
  set (futures := map (fun i => worker env pref n i fuel)
                      (range (num_workers env))).
  assert (Hfut : forall f, In f futures <->
                 exists i, 0 <= i < num_workers env /\
                           f = worker env pref n i fuel).
  { intros f. unfold futures. rewrite in_map_iff. split.
    - intros [i [<- Hi]]. exists i. split; [apply in_range, Hi | reflexivity].
    - intros [i [Hi ->]]. exists i. split; [reflexivity | apply in_range, Hi]. }
  destruct (for_as_completed (as_completed env futures)) as [r out] eqn:Hloop.
  cbn [fs_result]. split.
  - destruct (forallb finished futures) eqn:Hall.
    + intros ->.
      destruct (for_as_completed_running (as_completed env futures))
        as [f [Hin Hf]]; [rewrite Hloop; reflexivity|].
      apply (Permutation_in _ (as_completed_perm env futures)) in Hin.
      apply Hfut in Hin. destruct Hin as [i [Hi ->]]. exists i. auto.
    + intros _. destruct (forallb_false_exists _ _ Hall) as [f [Hin Hf]].
      apply Hfut in Hin. destruct Hin as [i [Hi ->]]. exists i.
      split; [exact Hi|]. unfold finished in Hf.
      destruct (t_result (worker env pref n i fuel)); [discriminate | reflexivity].
  - intros [i [Hi Hrun]].
    assert (Hall : forallb finished futures = false).
    { destruct (forallb finished futures) eqn:Hall; [|reflexivity].
      rewrite forallb_forall in Hall.
      specialize (Hall (worker env pref n i fuel)
                       (proj2 (Hfut _) (ex_intro _ i (conj Hi eq_refl)))).
      unfold finished in Hall. rewrite Hrun in Hall. discriminate. }
    rewrite Hall. reflexivity.
Qed.

Example find_suffix_waits_demo :
  t_result (worker demo_env "c0ffee" 8 1 4)
  = Done (Ok (true, hex (candidate demo_env 1 2))) /\
  t_result (worker demo_env "c0ffee" 8 0 4) = Running /\
  fs_result (find_suffix demo_env "c0ffee" 8 "task" 4) = Running /\
  fs_stdout (find_suffix demo_env "c0ffee" 8 "task" 4) = [MStarting 8; MFound].
Proof. vm_compute. repeat split; reflexivity. Qed.

(** When every worker has returned, [find_suffix] returns the suffix of
    one of them and prints [Valid suffix found!]. *)
Lemma find_suffix_all_returned (env : pow_env) (pref : string) (n : Z)
    (task_id : string) (fuel : nat) :
  1 <= num_workers env ->
  (forall i, 0 <= i < num_workers env ->
             exists s, t_result (worker env pref n i fuel)
                       = Done (Ok (true, s))) ->
  exists i s,
    0 <= i < num_workers env /\
    t_result (worker env pref n i fuel) = Done (Ok (true, s)) /\
    fs_result (find_suffix env pref n task_id fuel) = Done (Ok s) /\
    fs_stdout (find_suffix env pref n task_id fuel) = [MStarting n; MFound].
Proof.
  intros Hw Hall. unfold find_suffix.
  set (futures := map (fun i => worker env pref n i fuel)
                      (range (num_workers env))).
  assert (Hfut : forall f, In f futures ->
            exists i s, 0 <= i < num_workers env /\
                        f = worker env pref n i fuel /\
                        t_result f = Done (Ok (true, s))).
  { intros f Hf. unfold futures in Hf. apply in_map_iff in Hf.
    destruct Hf as [i [<- Hi]]. apply in_range in Hi.
    destruct (Hall i Hi) as [s Hs]. exists i, s. auto. }
  assert (Hdone : forallb finished futures = true).
  { apply forallb_forall. intros f Hf.
    destruct (Hfut f Hf) as [i [s [_ [_ Hs]]]]. unfold finished.
    rewrite Hs. reflexivity. }
  destruct (for_as_completed (as_completed env futures)) as [r out] eqn:Hloop.
  cbn [fs_result fs_stdout]. rewrite Hdone.
  destruct (as_completed env futures) as [|f rest] eqn:Hac.
  - exfalso.
    pose proof (Permutation_length (as_completed_perm env futures)) as Hl.
    rewrite Hac in Hl. unfold futures in Hl. rewrite length_map in Hl.
    destruct (range (num_workers env)) eqn:Hr; [|discriminate].
    exact (range_nonempty _ Hw Hr).
  - assert (Hin : In f futures).
    { apply (Permutation_in _ (as_completed_perm env futures)).
      rewrite Hac. left. reflexivity. }
    destruct (Hfut f Hin) as [i [s [Hi [Hf Hs]]]].
    cbn [for_as_completed] in Hloop. rewrite Hs in Hloop.
    injection Hloop as <- <-. exists i, s. subst f. auto.
Qed.

(** Among candidates that are each accepted or rejected, an accepted one
    is preceded by a first accepted one. *)
Lemma first_accepted (verdict : nat -> py bool) :
  (forall a, exists b, verdict a = Ok b) ->
  forall a, verdict a = Ok true ->
            exists a0, (a0 <= a)%nat /\ verdict a0 = Ok true /\
                       forall a', (a' < a0)%nat -> verdict a' = Ok false.
Proof.
  intros Htotal.
  assert (H : forall a,
             (exists a0, (a0 <= a)%nat /\ verdict a0 = Ok true /\
                         forall a', (a' < a0)%nat -> verdict a' = Ok false) \/
             (forall a', (a' <= a)%nat -> verdict a' = Ok false)).
  { induction a as [|a IH].
    - destruct (Htotal 0%nat) as [[|] H0].
      + left. exists 0%nat. split; [lia|]. split; [exact H0|]. intros a' Ha'. lia.
      + right. intros a' Ha'. replace a' with 0%nat by lia. exact H0.
    - destruct IH as [[a0 [Hle [Hacc Hrej]]]|Hrej].
      + left. exists a0. split; [lia|]. auto.
      + destruct (Htotal (S a)) as [[|] HS].
        * left. exists (S a). split; [lia|]. split; [exact HS|].
          intros a' Ha'. apply Hrej. lia.
        * right. intros a' Ha'.
          destruct (Nat.eq_dec a' (S a)) as [->|]; [exact HS|].
          apply Hrej. lia. }
  intros a Hacc. destruct (H a) as [Hfound|Hrej]; [exact Hfound|].
  rewrite (Hrej a (Nat.le_refl a)) in Hacc. discriminate.
Qed.

(** X8. The search succeeds when it can: for a difficulty between 0 and
    256, a prefix that decodes and at least one worker, if every worker has
    among its first [fuel] candidates one whose digest is accepted, then
    after [fuel] iterations [find_suffix] has returned the text of a
    candidate of one of the workers, and the digest of the prefix bytes
    followed by that candidate is accepted. *)
Theorem find_suffix_finds (env : pow_env) (pref : string) (p : list byte)
    (n : Z) (task_id : string) (fuel : nat) :
  0 <= n <= 256 ->
  fromhex pref = Ok p ->
  1 <= num_workers env ->
  (forall i, 0 <= i < num_workers env ->
             exists a, (a < fuel)%nat /\
                       is_valid_hash (sha256 (p ++ candidate env i a)) n
                       = Ok true) ->
  exists i a,
    0 <= i < num_workers env /\
    fs_result (find_suffix env pref n task_id fuel)
    = Done (Ok (hex (candidate env i a))) /\
    is_valid_hash (sha256 (p ++ candidate env i a)) n = Ok true.
Proof.
  intros Hn Hpref Hw Hall.
  assert (Hworker : forall i, 0 <= i < num_workers env ->
            exists a, t_result (worker env pref n i fuel)
                      = Done (Ok (true, hex (candidate env i a))) /\
                      is_valid_hash (sha256 (p ++ candidate env i a)) n
                      = Ok true).
  { intros i Hi. destruct (Hall i Hi) as [a [Ha Hacc]].
    destruct (first_accepted
                (fun a => is_valid_hash (sha256 (p ++ candidate env i a)) n))
      with (a := a) as [a0 [Hle [Hacc0 Hrej]]].
    - intros a'. apply is_valid_hash_within. rewrite sha256_length. lia.
    - exact Hacc.
    - exists a0. split; [|exact Hacc0]. unfold worker.
      replace fuel with (a0 + S (fuel - S a0))%nat by lia.
      destruct (worker_loop_skip env pref p n i Hpref a0
                  (S (fuel - S a0)) 0 []) as [out' ->].
      { intros a' Ha'. apply Hrej. lia. }
      cbn [Nat.add worker_loop].
      rewrite (fromhex_app_ok _ _ _ Hpref), Hacc0. reflexivity. }
  destruct (find_suffix_all_returned env pref n task_id fuel Hw)
    as [i [s [Hi [Hres [Hfs _]]]]].
  { intros i Hi. destruct (Hworker i Hi) as [a [Ha _]]. eexists. exact Ha. }
  destruct (Hworker i Hi) as [a [Ha Hacc]].
  rewrite Ha in Hres. injection Hres as <-.
  exists i, a. auto.
Qed.

(** Prefix c0ffee at difficulty 8 with the two workers of the sample
    environment and seven iterations each. *)
Lemma find_suffix_finds_witness :
  exists i a,
    0 <= i < num_workers demo_env /\
    fs_result (find_suffix demo_env "c0ffee" 8 "task" 7)
    = Done (Ok (hex (candidate demo_env i a))) /\
    is_valid_hash (sha256 ([xc0; xff; xee] ++ candidate demo_env i a)) 8
    = Ok true.
Proof.
  apply (find_suffix_finds demo_env "c0ffee" [xc0; xff; xee] 8 "task" 7).
  - lia.
  - reflexivity.
  - vm_compute. discriminate.
  - intros i Hi.
    assert (Hcases : i = 0 \/ i = 1).
    { change (num_workers demo_env) with 2 in Hi. lia. }
    destruct Hcases as [-> | ->].
    + exists 4%nat. split; [lia | vm_compute; reflexivity].
    + exists 2%nat. split; [lia | vm_compute; reflexivity].
Defined.

Lemma list_sum_zero (l : list nat) :
  (forall x, In x l -> x = 0%nat) -> list_sum l = 0%nat.
Proof.
  induction l as [|x l IH]; intros Hall; [reflexivity|].
  cbn [list_sum]. rewrite (Hall x (or_introl eq_refl)).
  apply IH. intros y Hy. apply Hall. right. exact Hy.
Qed.

(** X9. With a prefix that [bytes.fromhex] rejects and at least one
    worker, [find_suffix] raises [ValueError] as soon as every worker has
    run one iteration; no digest is computed and nothing but the starting
    line is printed. *)
Theorem find_suffix_bad_prefix (env : pow_env) (pref : string) (e : exn)
    (n : Z) (task_id : string) (fuel : nat) :
  fromhex pref = Raise e ->
  1 <= num_workers env ->
  fs_result (find_suffix env pref n task_id (S fuel)) = Done (Raise ValueError) /\
  hashes (find_suffix env pref n task_id (S fuel)) = 0%nat /\
  fs_stdout (find_suffix env pref n task_id (S fuel)) = [MStarting n].
Proof.
  intros Hpref Hw. unfold hashes, find_suffix.
  set (futures := map (fun i => worker env pref n i (S fuel))
                      (range (num_workers env))).
  assert (Hfut : forall f, In f futures ->
                           f = mkThread (Done (Raise ValueError)) 0 []).
  { intros f Hf. unfold futures in Hf. apply in_map_iff in Hf.
    destruct Hf as [i [<- _]]. unfold worker. cbn [worker_loop].
    rewrite (fromhex_app_raises pref e _ Hpref). reflexivity. }
  assert (Hdone : forallb finished futures = true).
  { apply forallb_forall. intros f Hf. rewrite (Hfut f Hf). reflexivity. }
  assert (Hsum : list_sum (map t_hashes futures) = 0%nat).
  { apply list_sum_zero. intros x Hx. apply in_map_iff in Hx.
    destruct Hx as [f [<- Hf]]. rewrite (Hfut f Hf). reflexivity. }
  destruct (for_as_completed (as_completed env futures)) as [r out] eqn:Hloop.
  cbn [fs_result fs_futures fs_stdout]. rewrite Hdone, Hsum.
  destruct (as_completed env futures) as [|f rest] eqn:Hac.
  - exfalso.
    pose proof (Permutation_length (as_completed_perm env futures)) as Hl.
    rewrite Hac in Hl. unfold futures in Hl. rewrite length_map in Hl.
    destruct (range (num_workers env)) eqn:Hr; [|discriminate].
    exact (range_nonempty _ Hw Hr).
  - assert (Hin : In f futures).
    { apply (Permutation_in _ (as_completed_perm env futures)).
      rewrite Hac. left. reflexivity. }
    rewrite (Hfut f Hin) in Hloop. cbn [for_as_completed t_result] in Hloop.
    injection Hloop as <- <-. repeat split.
Qed.

Lemma find_suffix_bad_prefix_witness :
  fs_result (find_suffix demo_env "abc" 8 "task" 1) = Done (Raise ValueError) /\
  hashes (find_suffix demo_env "abc" 8 "task" 1) = 0%nat /\
  fs_stdout (find_suffix demo_env "abc" 8 "task" 1) = [MStarting 8].
Proof.
  apply (find_suffix_bad_prefix demo_env "abc" ValueError 8 "task" 0).
  - reflexivity.
  - vm_compute. discriminate.
Defined.

Lemma worker_loop_hashes (env : pow_env) (pref : string) (n worker_id : Z) :
  forall (fuel attempts : nat) (out : list msg),
    (t_hashes (worker_loop env pref n worker_id fuel attempts out)
     <= attempts + fuel)%nat.
Proof.
  induction fuel as [|fuel IH]; intros attempts out; cbn [worker_loop].
  - cbn [t_hashes]. lia.
  - destruct (fromhex _) as [data|e]; [|cbn [t_hashes]; lia].
    destruct (is_valid_hash (sha256 data) n) as [[|]|e];
      try (cbn [t_hashes]; lia).
    match goal with
    | |- context [worker_loop _ _ _ _ fuel (S attempts) ?o] =>
        pose proof (IH (S attempts) o)
    end. lia.
Qed.

Lemma list_sum_bound (l : list nat) (bound : nat) :
  (forall x, In x l -> (x <= bound)%nat) ->
  (list_sum l <= List.length l * bound)%nat.
Proof.
  induction l as [|x l IH]; intros Hall; simpl; [lia|].
  pose proof (Hall x (or_introl eq_refl)).
  assert (list_sum l <= List.length l * bound)%nat
    by (apply IH; intros y Hy; apply Hall; right; exact Hy).
  lia.
Qed.

(** X10. The resources of a call: [find_suffix] submits exactly
    [num_workers] workers, never more than 32 (and none when that number is
    not positive), and each computes at most one digest per iteration, so
    that after [fuel] iterations at most [32 * fuel] digests have been
    computed. *)
Theorem find_suffix_resources (env : pow_env) (pref : string) (n : Z)
    (task_id : string) (fuel : nat) :
  List.length (fs_futures (find_suffix env pref n task_id fuel))
  = Z.to_nat (num_workers env) /\
  (List.length (fs_futures (find_suffix env pref n task_id fuel)) <= 32)%nat /\
  (hashes (find_suffix env pref n task_id fuel) <= 32 * fuel)%nat.
Proof.
  unfold hashes, find_suffix.
  destruct (for_as_completed _) as [r out]. cbn [fs_futures].
  assert (Hlen : List.length
                   (map (fun i => worker env pref n i fuel)
                        (range (num_workers env)))
                 = Z.to_nat (num_workers env)).
  { unfold range. rewrite !length_map, length_seq. reflexivity. }
  pose proof (num_workers_le_32 env) as H32.
  split; [exact Hlen|]. split; [lia|].
  eapply Nat.le_trans.
  - apply (list_sum_bound _ fuel). intros x Hx.
    apply in_map_iff in Hx. destruct Hx as [f [<- Hf]].
    apply in_map_iff in Hf. destruct Hf as [i [<- _]].
    exact (worker_loop_hashes env pref n i fuel 0 []).
  - rewrite length_map, Hlen. apply Nat.mul_le_mono_r. lia.
Qed.

Lemma worker_loop_stable (env : pow_env) (pref : string) (n worker_id : Z) :
  forall (fuel more attempts : nat) (out : list msg),
    finished (worker_loop env pref n worker_id fuel attempts out) = true ->
    worker_loop env pref n worker_id (fuel + more) attempts out
    = worker_loop env pref n worker_id fuel attempts out.
Proof.
  induction fuel as [|fuel IH]; intros more attempts out; cbn [worker_loop Nat.add].
  - discriminate.
  - destruct (fromhex _) as [data|e]; [|reflexivity].
    destruct (is_valid_hash (sha256 data) n) as [[|]|e]; try reflexivity.
    apply IH.
Qed.

(** X11. A result is final: once [find_suffix] has ended, by returning or
    by raising, letting the workers run longer changes nothing of the
    outcome, neither the result nor the futures nor what was printed. *)
Theorem find_suffix_final (env : pow_env) (pref : string) (n : Z)
    (task_id : string) (fuel more : nat) (r : py string) :
  fs_result (find_suffix env pref n task_id fuel) = Done r ->
  find_suffix env pref n task_id (fuel + more)
  = find_suffix env pref n task_id fuel.
Proof.
  intros Hr.
  assert (Hall : forallb finished
                   (map (fun i => worker env pref n i fuel)
                        (range (num_workers env))) = true).
  { revert Hr. unfold find_suffix. destruct (for_as_completed _) as [r' out].
    cbn [fs_result]. destruct (forallb finished _); [reflexivity | discriminate]. }
  assert (Hmap : map (fun i => worker env pref n i (fuel + more))
                     (range (num_workers env))
                 = map (fun i => worker env pref n i fuel)
                       (range (num_workers env))).
  { apply map_ext_in. intros i Hi. unfold worker. apply worker_loop_stable.
    rewrite forallb_forall in Hall. apply Hall.
    apply in_map_iff. exists i. split; [reflexivity | exact Hi]. }
  unfold find_suffix. rewrite Hmap. reflexivity.
Qed.

Lemma find_suffix_final_witness :
  find_suffix demo_env "c0ffee" 8 "task" (5 + 20)
  = find_suffix demo_env "c0ffee" 8 "task" 5.
Proof.
  apply (find_suffix_final demo_env "c0ffee" 8 "task" 5 20
           (Ok (hex (candidate demo_env 1 2)))).
  vm_compute. reflexivity.
Defined.


(** ** The two requests *)

(** [get_challenge] by cases, each with its trace. *)
Lemma get_challenge_value (endpoint : string) (fe : file_env) :
  get_challenge endpoint fe
  = let get := HttpGet (endpoint ++ "/api2/challenge") in
    match get_reply fe with
    | Unanswered => (Running, [get])
    | Failed => (Done (Raise RequestException), [get])
    | Answered r =>
        if negb (status_code r =? 200) then
          (Done (Raise (SystemExit 1)),
           [get; Print (MText (text r)); Print (MFailedChallenge (status_code r))])
        else
          match json r with
          | None => (Done (Raise JSONDecodeError), [get; Print (MText (text r))])
          | Some data =>
              if negb (c_success data) then
                (Done (Raise (SystemExit 1)),
                 [get; Print (MText (text r)); Print MChallengeFailed])
              else (Done (Ok data), [get; Print (MText (text r))])
          end
    end.
Proof.
  unfold get_challenge.
  destruct (get_reply fe) as [[status body [data|]]| |]; cbn;
    try reflexivity;
    destruct (status =? 200); cbn; try reflexivity;
    destruct (c_success data); reflexivity.
Qed.

(** X12. [get_challenge] sends exactly one request, the GET of
    [endpoint/api2/challenge].  It returns the JSON object of the response
    exactly when the status is 200, the body is JSON and its [success] is
    true; it calls [sys.exit(1)] exactly when a response arrived whose
    status is not 200, or whose status is 200 and whose JSON says no
    success; what else it raises (the request failed, the body is not JSON)
    derives from [Exception].  The request is sent without a timeout, and
    the call does not end exactly when the request is never answered. *)
Theorem get_challenge_outcome (endpoint : string) (fe : file_env) :
  filter is_network (snd (get_challenge endpoint fe))
  = [HttpGet (endpoint ++ "/api2/challenge")] /\
  (forall data,
      fst (get_challenge endpoint fe) = Done (Ok data) <->
      exists r, get_reply fe = Answered r /\ status_code r = 200 /\
                json r = Some data /\ c_success data = true) /\
  (fst (get_challenge endpoint fe) = Done (Raise (SystemExit 1)) <->
   challenge_exits fe = true) /\
  (forall e, fst (get_challenge endpoint fe) = Done (Raise e) ->
             e = SystemExit 1 \/ e = RequestException \/ e = JSONDecodeError) /\
  (fst (get_challenge endpoint fe) = Running <-> get_reply fe = Unanswered).
Proof.
  rewrite get_challenge_value. unfold challenge_exits. cbv zeta.
  destruct (get_reply fe) as [r| |].
  - destruct (Z.eqb_spec (status_code r) 200) as [Hst|Hst]; cbn [negb orb].
    + destruct (json r) as [data'|] eqn:Hj.
      * destruct (c_success data') eqn:Hok; cbn [negb fst snd].
        -- split; [reflexivity|]. split; [|split; [|split]].
           ++ intros data. split.
              ** intros H. injection H as <-. exists r. auto.
              ** intros [r' [Hr [_ [Hj' _]]]]. injection Hr as <-. congruence.
           ++ split; discriminate.
           ++ discriminate.
           ++ split; discriminate.
        -- split; [reflexivity|]. split; [|split; [|split]].
           ++ intros data. split; [discriminate|].
              intros [r' [Hr [_ [Hj' Hc]]]]. injection Hr as <-. congruence.
           ++ split; reflexivity.
           ++ intros e H. injection H as <-. auto.
           ++ split; discriminate.
      * cbn [fst snd]. split; [reflexivity|]. split; [|split; [|split]].
        -- intros data. split; [discriminate|].
           intros [r' [Hr [_ [Hj' _]]]]. injection Hr as <-. congruence.
        -- split; discriminate.
        -- intros e H. injection H as <-. auto.
        -- split; discriminate.
    + cbn [fst snd]. split; [reflexivity|]. split; [|split; [|split]].
      * intros data. split; [discriminate|].
        intros [r' [Hr [Hs _]]]. injection Hr as <-. contradiction.
      * split; reflexivity.
      * intros e H. injection H as <-. auto.
      * split; discriminate.
  - cbn [fst snd]. split; [reflexivity|]. split; [|split; [|split]].
    + intros data. split; [discriminate|]. intros [r' [Hr _]]. discriminate.
    + split; discriminate.
    + intros e H. injection H as <-. auto.
    + split; discriminate.
  - cbn [fst snd]. split; [reflexivity|]. split; [|split; [|split]].
    + intros data. split; [discriminate|]. intros [r' [Hr _]]. discriminate.
    + split; discriminate.
    + discriminate.
    + split; reflexivity.
Qed.

(** [upload_image] by cases, each with its trace. *)
Lemma upload_image_value (w : world) (endpoint : string) (fe : file_env)
    (path task_id suff : string) :
  upload_image w endpoint fe path task_id suff
  = if negb (readable w path) then (Done (Raise OSError), [])
    else
      let sent := [Print MUploading;
                   HttpPost (endpoint ++ "/api2/upload") path task_id suff] in
      match post_reply fe with
      | Unanswered => (Running, sent)
      | Failed => (Done (Raise RequestException), sent)
      | Answered r =>
          if (400 <=? status_code r) && (status_code r <? 600)
          then (Done (Raise HTTPError), sent)
          else
            match json r with
            | None => (Done (Raise JSONDecodeError), sent)
            | Some result =>
                if negb (u_success result)
                then (Done (Raise (SystemExit 1)), sent ++ [Print MUploadFailed])
                else (Done (Ok (u_url result)), sent)
            end
      end.
Proof.
  unfold upload_image.
  destruct (readable w path); cbn [negb]; [|reflexivity].
  destruct (post_reply fe) as [[status body [result|]]| |]; cbn;
    try reflexivity;
    destruct ((400 <=? status) && (status <? 600)); cbn; try reflexivity;
    destruct (u_success result); reflexivity.
Qed.

(** X13. [upload_image] opens the file before anything else: when the file
    cannot be opened it raises [OSError] and neither prints nor sends
    anything.  Otherwise it sends exactly one request, the POST of the
    file, the task id and the suffix to [endpoint/api2/upload].  It returns
    the URL of the response exactly when the status is no HTTP error, the
    body is JSON and its [success] is true; an HTTP error status raises
    [HTTPError] whatever the body says, so [sys.exit(1)] is reached only on
    a response without error status whose JSON says no success.  The
    request is sent without a timeout, and the call does not end exactly
    when the file was opened and the request is never answered. *)
Theorem upload_image_outcome (w : world) (endpoint : string) (fe : file_env)
    (path task_id suff : string) :
  (readable w path = false ->
   upload_image w endpoint fe path task_id suff = (Done (Raise OSError), [])) /\
  (readable w path = true ->
   filter is_network (snd (upload_image w endpoint fe path task_id suff))
   = [HttpPost (endpoint ++ "/api2/upload") path task_id suff]) /\
  (forall url,
      fst (upload_image w endpoint fe path task_id suff) = Done (Ok url) <->
      readable w path = true /\
      exists r result,
        post_reply fe = Answered r /\
        (400 <=? status_code r) && (status_code r <? 600) = false /\
        json r = Some result /\ u_success result = true /\
        u_url result = url) /\
  (fst (upload_image w endpoint fe path task_id suff)
   = Done (Raise (SystemExit 1)) <->
   readable w path = true /\ upload_exits fe = true) /\
  (fst (upload_image w endpoint fe path task_id suff) = Running <->
   readable w path = true /\ post_reply fe = Unanswered).
Proof.
  rewrite upload_image_value. unfold upload_exits. cbv zeta.
  destruct (readable w path); cbn [negb].
  - split; [discriminate|].
    destruct (post_reply fe) as [r| |].
    + destruct ((400 <=? status_code r) && (status_code r <? 600)) eqn:Herr;
        cbn [negb andb].
      * cbn [fst snd]. split; [reflexivity|]. split; [|split].
        -- intros url. split; [discriminate|].
           intros [_ [r' [result [Hr [He _]]]]]. injection Hr as <-. congruence.
        -- split; [discriminate | intros [_ H]; discriminate].
        -- split; [discriminate | intros [_ H]; discriminate].
      * destruct (json r) as [result|] eqn:Hj.
        -- destruct (u_success result) eqn:Hok; cbn [negb fst snd].
           ++ split; [reflexivity|]. split; [|split].
              ** intros url. split.
                 --- intros H. injection H as <-. split; [reflexivity|].
                     exists r, result. auto.
                 --- intros [_ [r' [result' [Hr [_ [Hj' [_ Hu]]]]]]].
                     injection Hr as <-. congruence.
              ** split; [discriminate | intros [_ H]; discriminate].
              ** split; [discriminate | intros [_ H]; discriminate].
           ++ split; [reflexivity|]. split; [|split].
              ** intros url. split; [discriminate|].
                 intros [_ [r' [result' [Hr [_ [Hj' [Hs _]]]]]]].
                 injection Hr as <-. congruence.
              ** split; auto.
              ** split; [discriminate | intros [_ H]; discriminate].
        -- cbn [fst snd]. split; [reflexivity|]. split; [|split].
           ++ intros url. split; [discriminate|].
              intros [_ [r' [result' [Hr [_ [Hj' _]]]]]].
              injection Hr as <-. congruence.
           ++ split; [discriminate | intros [_ H]; discriminate].
           ++ split; [discriminate | intros [_ H]; discriminate].
    + cbn [fst snd]. split; [reflexivity|]. split; [|split].
      * intros url. split; [discriminate|].
        intros [_ [r' [result' [Hr _]]]]. discriminate.
      * split; [discriminate | intros [_ H]; discriminate].
      * split; [discriminate | intros [_ H]; discriminate].
    + cbn [fst snd]. split; [reflexivity|]. split; [|split].
      * intros url. split; [discriminate|].
        intros [_ [r' [result' [Hr _]]]]. discriminate.
      * split; [discriminate | intros [_ H]; discriminate].
      * split; auto.
  - cbn [fst snd]. split; [reflexivity|]. split; [discriminate|].
    split; [|split].
    + intros url. split; [discriminate | intros [H _]; discriminate].
    + split; [discriminate | intros [H _]; discriminate].
    + split; [discriminate | intros [H _]; discriminate].
Qed.

(** A file that cannot be opened, and an upload answered with status
    503. *)
Lemma upload_image_outcome_witness :
  upload_image locked_world "https://host" good_file "locked.png" "task-1" "00"
  = (Done (Raise OSError), []) /\
  filter is_network
    (snd (upload_image mixed_world "https://host" unavailable_file "c.png"
            "task-1" "00"))
  = [HttpPost "https://host/api2/upload" "c.png" "task-1" "00"].
Proof.
  split.
  - apply (proj1 (upload_image_outcome locked_world "https://host" good_file
                    "locked.png" "task-1" "00")).
    reflexivity.
  - apply (proj1 (proj2 (upload_image_outcome mixed_world "https://host"
                           unavailable_file "c.png" "task-1" "00"))).
    reflexivity.
Defined.

(** ** One file *)

(** [process_file_body] by cases, each with what it has done so far. *)
Lemma process_file_body_value (w : world) (endpoint : string) (fe : file_env)
    (path : string) :
  process_file_body w endpoint fe path
  = match fst (get_challenge endpoint fe) with
    | Running => (Running, snd (get_challenge endpoint fe))
    | Done (Raise e) => (Done (Raise e), snd (get_challenge endpoint fe))
    | Done (Ok data) =>
        let t0 := snd (get_challenge endpoint fe) in
        match c_N data, c_ip data with
        | Some n, Some ip =>
            let t1 := t0 ++ [Print (MChallenge n ip)] in
            match c_pref data, c_taskId data with
            | Some pref, Some task_id =>
                let s := find_suffix (pow fe) pref n task_id (patience w) in
                let t2 := t1 ++ map Print (fs_stdout s) in
                match fs_result s with
                | Running => (Running, t2)
                | Done (Raise e) => (Done (Raise e), t2)
                | Done (Ok suff) =>
                    let u := upload_image w endpoint fe path task_id suff in
                    let t3 := t2 ++ Print (MUploadingImage path) :: snd u in
                    match fst u with
                    | Done (Ok url) =>
                        (Done (Ok url), t3 ++ [Print (MUploadOk path)])
                    | Done (Raise e) => (Done (Raise e), t3)
                    | Running => (Running, t3)
                    end
                end
            | _, _ => (Done (Raise KeyError), t1)
            end
        | _, _ => (Done (Raise KeyError), t0)
        end
    end.
Proof.
  unfold process_file_body.
  destruct (get_challenge endpoint fe) as [[[data|e]|] t0]; cbn [bind fst snd];
    try reflexivity.
  destruct (c_N data) as [n|]; cbn; [|rewrite app_nil_r; reflexivity].
  destruct (c_ip data) as [ip|]; cbn; [|rewrite app_nil_r; reflexivity].
  destruct (c_pref data) as [pref|]; cbn; [|reflexivity].
  destruct (c_taskId data) as [task_id|]; cbn; [|reflexivity].
  unfold solve.
  destruct (fs_result (find_suffix (pow fe) pref n task_id (patience w)))
    as [[suff|e]|]; cbn;
    try (rewrite ?app_nil_r, <- ?app_assoc; cbn; reflexivity).
  destruct (upload_image w endpoint fe path task_id suff) as [[[url|e]|] tu];
    cbn; rewrite <- ?app_assoc; cbn; try reflexivity.
Qed.

Lemma filter_network_prints (l : list msg) :
  filter is_network (map Print l) = [].
Proof. induction l as [|m l IH]; [reflexivity | exact IH]. Qed.

(** How the body of the [try] can fail to return: by an exception that
    derives from [Exception], by [sys.exit(1)] on one of the two answers
    that trigger it, or by waiting for ever: for the answer to the
    challenge request, for a search that does not end, or, the file being
    open, for the answer to the upload request. *)
Lemma process_file_body_fails (w : world) (endpoint : string) (fe : file_env)
    (path : string) :
  (forall e, fst (process_file_body w endpoint fe path) = Done (Raise e) ->
             is_Exception e = true \/
             (e = SystemExit 1 /\
              (challenge_exits fe = true \/ upload_exits fe = true))) /\
  (fst (process_file_body w endpoint fe path) = Running ->
   challenge_unanswered fe = true \/
   search_hangs w fe = true \/
   (readable w path = true /\ upload_unanswered fe = true)).
Proof.
  rewrite process_file_body_value, get_challenge_value.
  unfold challenge_exits, upload_exits, search_hangs, challenge_unanswered,
    upload_unanswered. cbv zeta.
  destruct (get_reply fe) as [r| |]; cbn [fst snd];
    [|split; [intros e H; injection H as <-; auto | discriminate]
     |split; [discriminate | auto]].
  destruct (status_code r =? 200); cbn [negb orb fst snd];
    [|split; [intros e H; injection H as <-; auto | discriminate]].
  destruct (json r) as [data|]; cbn [fst snd];
    [|split; [intros e H; injection H as <-; auto | discriminate]].
  destruct (c_success data); cbn [negb fst snd];
    [|split; [intros e H; injection H as <-; auto | discriminate]].
  destruct (c_N data) as [n|];
    [|split; [intros e H; injection H as <-; auto | discriminate]].
  destruct (c_ip data) as [ip|];
    [|split; [intros e H; injection H as <-; auto | discriminate]].
  destruct (c_pref data) as [pref|];
    [|split; [intros e H; injection H as <-; auto | discriminate]].
  destruct (c_taskId data) as [task_id|];
    [|split; [intros e H; injection H as <-; auto | discriminate]].
  destruct (fs_result (find_suffix (pow fe) pref n task_id (patience w)))
    as [[suff|e0]|] eqn:Hs; cbn [fst snd].
  - rewrite upload_image_value. cbv zeta.
    destruct (readable w path); cbn [negb fst snd];
      [|split; [intros e H; injection H as <-; auto | discriminate]].
    destruct (post_reply fe) as [r'| |]; cbn [fst snd];
      [|split; [intros e H; injection H as <-; auto | discriminate]
       |split; [discriminate | auto]].
    destruct ((400 <=? status_code r') && (status_code r' <? 600));
      cbn [negb andb fst snd];
      [split; [intros e H; injection H as <-; auto | discriminate]|].
    destruct (json r') as [result|]; cbn [fst snd];
      [|split; [intros e H; injection H as <-; auto | discriminate]].
    destruct (u_success result); cbn [negb fst snd];
      split; try discriminate.
    intros e H; injection H as <-; auto.
  - split; [|discriminate]. intros e H. injection H as <-.
    left. destruct (find_suffix_raises _ _ _ _ _ _ Hs) as [-> | ->]; reflexivity.
  - split; [discriminate | auto].
Qed.

(** X14. How [process_file] ends.  It returns (the URL, or the empty
    string after an error), or it leaves by [SystemExit(1)], or it does not
    end: whatever [get_challenge], [find_suffix] and [upload_image] raise
    that derives from [Exception] is caught.  It leaves by [SystemExit]
    only for a file that exists and on one of the two answers on which the
    code calls [sys.exit(1)].  It does not end only for a file that exists,
    and then it waits for the answer to the challenge request, for a search
    that does not end, or, the file being open, for the answer to the
    upload request; a challenge request that is never answered does keep
    it, after the GET and before anything is printed. *)
Theorem process_file_outcome (w : world) (endpoint : string) (i : nat)
    (path : string) :
  ((exists url, fst (process_file w endpoint i path) = Done (Ok url)) \/
   fst (process_file w endpoint i path) = Done (Raise (SystemExit 1)) \/
   fst (process_file w endpoint i path) = Running) /\
  (forall e, fst (process_file w endpoint i path) = Done (Raise e) ->
             e = SystemExit 1 /\ isfile w path = true /\
             (challenge_exits (per_file w i) = true \/
              upload_exits (per_file w i) = true)) /\
  (fst (process_file w endpoint i path) = Running ->
   isfile w path = true /\
   (challenge_unanswered (per_file w i) = true \/
    search_hangs w (per_file w i) = true \/
    (readable w path = true /\ upload_unanswered (per_file w i) = true))) /\
  (isfile w path = true ->
   get_reply (per_file w i) = Unanswered ->
   process_file w endpoint i path
   = (Running, [HttpGet (endpoint ++ "/api2/challenge")])).
Proof.
  split; [|split; [|split]].
  4: { intros Hfile Hreply. unfold process_file. rewrite Hfile. cbn [negb].
       rewrite process_file_body_value, get_challenge_value, Hreply.
       reflexivity. }
  all: unfold process_file; destruct (isfile w path); cbn [negb];
    [|cbn; first [left; eexists; reflexivity | discriminate]].
  all: destruct (process_file_body_fails w endpoint (per_file w i) path)
      as [Hraise Hrun];
    unfold try_except_Exception;
    destruct (process_file_body w endpoint (per_file w i) path)
      as [[[url|e]|] t]; cbn [fst] in *.
  - left. eexists. reflexivity.
  - destruct (Hraise e eq_refl) as [Hexc | [-> Hwhy]].
    + rewrite Hexc. left. eexists. reflexivity.
    + right. left. reflexivity.
  - right. right. reflexivity.
  - discriminate.
  - destruct (Hraise e eq_refl) as [Hexc | [-> Hwhy]].
    + rewrite Hexc. discriminate.
    + cbn. intros e H. injection H as <-. auto.
  - discriminate.
  - discriminate.
  - destruct (Hraise e eq_refl) as [Hexc | [-> Hwhy]].
    + rewrite Hexc. discriminate.
    + discriminate.
  - intros _. split; [reflexivity | apply Hrun; reflexivity].
Qed.

(** The requests [process_file_body] sends: always the GET of the
    challenge, then the POST if the upload is reached and the file opens,
    with the task id of the challenge and the suffix the search returned. *)
Lemma process_file_body_requests (w : world) (endpoint : string)
    (fe : file_env) (path : string) :
  filter is_network (snd (process_file_body w endpoint fe path))
  = [HttpGet (endpoint ++ "/api2/challenge")] \/
  exists r data n pref task_id suff,
    get_reply fe = Answered r /\ json r = Some data /\
    c_N data = Some n /\ c_pref data = Some pref /\
    c_taskId data = Some task_id /\
    fs_result (find_suffix (pow fe) pref n task_id (patience w))
    = Done (Ok suff) /\
    readable w path = true /\
    filter is_network (snd (process_file_body w endpoint fe path))
    = [HttpGet (endpoint ++ "/api2/challenge");
       HttpPost (endpoint ++ "/api2/upload") path task_id suff].
Proof.
  rewrite process_file_body_value, get_challenge_value. cbv zeta.
  destruct (get_reply fe) as [r| |]; cbn [fst snd];
    [|left; reflexivity..].
  destruct (status_code r =? 200); cbn [negb fst snd]; [|left; reflexivity].
  destruct (json r) as [data|] eqn:Hj; cbn [fst snd]; [|left; reflexivity].
  destruct (c_success data); cbn [negb fst snd]; [|left; reflexivity].
  destruct (c_N data) as [n|] eqn:HN; [|left; reflexivity].
  destruct (c_ip data) as [ip|]; [|left; reflexivity].
  destruct (c_pref data) as [pref|] eqn:Hp; [|left; reflexivity].
  destruct (c_taskId data) as [task_id|] eqn:Ht; [|left; reflexivity].
  destruct (fs_result (find_suffix (pow fe) pref n task_id (patience w)))
    as [[suff|e0]|] eqn:Hs; cbn [fst snd];
    try (left; cbn; rewrite filter_network_prints; reflexivity).
  rewrite upload_image_value. cbv zeta.
  destruct (readable w path) eqn:Hread; cbn [negb fst snd].
  - right. exists r, data, n, pref, task_id, suff.
    repeat (split; [assumption || reflexivity|]).
    destruct (post_reply fe) as [r'| |]; cbn [fst snd];
      [destruct ((400 <=? status_code r') && (status_code r' <? 600));
         cbn [fst snd];
         [|destruct (json r') as [result|]; cbn [fst snd];
             [destruct (u_success result); cbn [negb fst snd]|]]| |];
      cbn; rewrite ?filter_app, filter_network_prints; reflexivity.
  - left. cbn. rewrite filter_app, filter_network_prints. reflexivity.
Qed.

(** X15. The requests made for one file, in order: none if the path is
    not a file; otherwise the GET of the challenge, followed by at most one
    POST.  When there is a POST, the file could be opened, and the request
    carries the task id of the challenge just received and the suffix that
    [find_suffix] returned for the prefix and difficulty of that
    challenge. *)
Theorem process_file_requests (w : world) (endpoint : string) (i : nat)
    (path : string) :
  (isfile w path = false /\
   filter is_network (snd (process_file w endpoint i path)) = []) \/
  (isfile w path = true /\
   filter is_network (snd (process_file w endpoint i path))
   = [HttpGet (endpoint ++ "/api2/challenge")]) \/
  (isfile w path = true /\
   exists r data n pref task_id suff,
     get_reply (per_file w i) = Answered r /\ json r = Some data /\
     c_N data = Some n /\ c_pref data = Some pref /\
     c_taskId data = Some task_id /\
     fs_result (find_suffix (pow (per_file w i)) pref n task_id (patience w))
     = Done (Ok suff) /\
     readable w path = true /\
     filter is_network (snd (process_file w endpoint i path))
     = [HttpGet (endpoint ++ "/api2/challenge");
        HttpPost (endpoint ++ "/api2/upload") path task_id suff]).
Proof.
  unfold process_file. destruct (isfile w path); cbn [negb].
  - right.
    assert (Hsame :
      filter is_network
        (snd (try_except_Exception
                (process_file_body w endpoint (per_file w i) path)
                (fun e => (print (MError path e) ;; ret EmptyString)%io)))
      = filter is_network
          (snd (process_file_body w endpoint (per_file w i) path))).
    { unfold try_except_Exception.
      destruct (process_file_body w endpoint (per_file w i) path)
        as [[[url|e]|] t]; try reflexivity.
      destruct (is_Exception e); [|reflexivity].
      cbn. rewrite filter_app. cbn. apply app_nil_r. }
    rewrite Hsame.
    destruct (process_file_body_requests w endpoint (per_file w i) path)
      as [Hget | [r [data [n [pref [task_id [suff H]]]]]]].
    + left. split; [reflexivity | exact Hget].
    + right. split; [reflexivity|]. exists r, data, n, pref, task_id, suff.
      exact H.
  - left. split; reflexivity.
Qed.

(** The body of the [try] returns a URL exactly when everything went
    well. *)
Lemma process_file_body_returns (w : world) (endpoint : string)
    (fe : file_env) (path url : string) :
  isfile w path = true ->
  (fst (process_file_body w endpoint fe path) = Done (Ok url) <->
   uploaded w fe path url).
Proof.
  intros Hfile. unfold uploaded.
  rewrite process_file_body_value, get_challenge_value. cbv zeta.
  split.
  - destruct (get_reply fe) as [r| |]; cbn [fst snd]; [|discriminate..].
    destruct (Z.eqb_spec (status_code r) 200) as [Hst|Hst];
      cbn [negb fst snd]; [|discriminate].
    destruct (json r) as [data|] eqn:Hj; cbn [fst snd]; [|discriminate].
    destruct (c_success data) eqn:Hok; cbn [negb fst snd]; [|discriminate].
    destruct (c_N data) as [n|] eqn:HN; [|discriminate].
    destruct (c_ip data) as [ip|] eqn:Hip; [|discriminate].
    destruct (c_pref data) as [pref|] eqn:Hp; [|discriminate].
    destruct (c_taskId data) as [task_id|] eqn:Ht; [|discriminate].
    destruct (fs_result (find_suffix (pow fe) pref n task_id (patience w)))
      as [[suff|e0]|] eqn:Hs; cbn [fst snd]; try discriminate.
    rewrite upload_image_value. cbv zeta.
    destruct (readable w path) eqn:Hread; cbn [negb fst snd]; [|discriminate].
    destruct (post_reply fe) as [r'| |]; cbn [fst snd]; [|discriminate..].
    destruct ((400 <=? status_code r') && (status_code r' <? 600)) eqn:Herr;
      cbn [fst snd]; [discriminate|].
    destruct (json r') as [result|] eqn:Hj'; cbn [fst snd]; [|discriminate].
    destruct (u_success result) eqn:Hok'; cbn [negb fst snd]; [|discriminate].
    intros H. injection H as <-.
    split; [exact Hfile|]. split; [reflexivity|].
    exists r, data, n, ip, pref, task_id, suff, r', result.
    repeat (split; [assumption || reflexivity|]). reflexivity.
  - intros [_ [Hread [r [data [n [ip [pref [task_id [suff [r' [result H]]]]]]]]]]].
    destruct H as [Hr [Hst [Hj [Hok [HN [Hip [Hp [Ht [Hs [Hr' [Herr [Hj' [Hok' Hu]]]]]]]]]]]]].
    rewrite Hr. cbn [fst snd]. rewrite Hst. cbn [Z.eqb negb Pos.eqb].
    rewrite Hj. cbn [fst snd]. rewrite Hok. cbn [negb fst snd].
    rewrite HN, Hip, Hp, Ht, Hs. cbn [fst snd].
    rewrite upload_image_value. cbv zeta.
    rewrite Hread, Hr'. cbn [negb fst snd]. rewrite Herr, Hj'. cbn [fst snd].
    rewrite Hok'. cbn [negb fst snd]. rewrite Hu. reflexivity.
Qed.

(** X16. [process_file] returns a non-empty URL exactly when everything
    went well and that URL is the one of the upload response: the path is a
    file that can be opened, the challenge response is complete and says
    success, the search returned, and the upload response has no error
    status and says success.  So the counter of [main] never counts a file
    whose upload failed, and it does not count a successful upload whose
    response carries no URL. *)
Theorem process_file_success (w : world) (endpoint : string) (i : nat)
    (path url : string) :
  truthy url = true ->
  (fst (process_file w endpoint i path) = Done (Ok url) <->
   uploaded w (per_file w i) path url).
Proof.
  intros Hurl. unfold process_file.
  destruct (isfile w path) eqn:Hfile; cbn [negb].
  - rewrite <- (process_file_body_returns w endpoint _ path url Hfile).
    unfold try_except_Exception.
    destruct (process_file_body w endpoint (per_file w i) path)
      as [[[url'|e]|] t]; cbn [fst]; try tauto.
    destruct (is_Exception e); cbn [fst].
    + split; [|discriminate]. intros H. injection H as <-. discriminate.
    + tauto.
  - cbn. split.
    + intros H. injection H as <-. discriminate.
    + intros [H _]. congruence.
Qed.

Lemma process_file_success_witness :
  fst (process_file mixed_world "https://host" 0 "a.png")
  = Done (Ok "https://img.example/1.png"%string) <->
  uploaded mixed_world (per_file mixed_world 0) "a.png"
           "https://img.example/1.png".
Proof.
  apply (process_file_success mixed_world "https://host" 0 "a.png"
           "https://img.example/1.png").
  reflexivity.
Defined.

Example process_file_success_demo :
  fst (process_file mixed_world "https://host" 0 "a.png")
  = Done (Ok "https://img.example/1.png"%string).
Proof. vm_compute. reflexivity. Qed.



(** ** The loop over the files, whatever happens *)

Lemma summaries_app (t1 t2 : list event) :
  summaries (t1 ++ t2) = summaries t1 ++ summaries t2.
Proof.
  induction t1 as [|e t1 IH]; [reflexivity|].
  destruct e as [m| |]; try exact IH.
  destruct m; cbn [app summaries]; rewrite ?IH; reflexivity.
Qed.

Lemma silent_bind {A B : Type} (m : io A) (k : A -> io B) :
  silent m -> (forall a, silent (k a)) -> silent (bind m k).
Proof.
  unfold silent. intros Hm Hk. destruct m as [[[a|e]|] t]; cbn [bind snd] in *;
    try exact Hm.
  specialize (Hk a). destruct (k a) as [r t']. cbn [snd] in *.
  rewrite summaries_app, Hm, Hk. reflexivity.
Qed.

Lemma silent_try {A : Type} (body : io A) (handler : exn -> io A) :
  silent body -> (forall e, silent (handler e)) ->
  silent (try_except_Exception body handler).
Proof.
  unfold silent. intros Hb Hh.
  destruct body as [[[a|e]|] t]; cbn [try_except_Exception snd] in *;
    try exact Hb.
  destruct (is_Exception e); [|exact Hb].
  specialize (Hh e). destruct (handler e) as [r t']. cbn [snd] in *.
  rewrite summaries_app, Hb, Hh. reflexivity.
Qed.

Lemma silent_getkey {A : Type} (v : option A) : silent (getkey v).
Proof. destruct v; reflexivity. Qed.

Lemma silent_solve (w : world) (fe : file_env) (pref : string) (n : Z)
    (task_id : string) : silent (solve w fe pref n task_id).
Proof.
  unfold silent, solve, find_suffix. cbn [snd].
  match goal with
  | |- context [for_as_completed ?fs] =>
      destruct (for_as_completed_out fs) as [H|H];
      destruct (for_as_completed fs) as [r out]
  end; cbn [snd fs_stdout] in *; subst out; reflexivity.
Qed.

(** One step of a proof that a computation prints no
    [Upload complete: ...] line. *)
Ltac silent_step :=
  match goal with
  | |- silent (bind _ _) => apply silent_bind; [|intros ?]
  | |- silent (getkey _) => apply silent_getkey
  | |- silent (solve _ _ _ _ _) => apply silent_solve
  | |- silent (if ?c then _ else _) => destruct c
  | |- silent (match ?x with _ => _ end) => destruct x
  | |- silent _ => reflexivity
  end.

Lemma silent_process_file (w : world) (endpoint : string) (i : nat)
    (path : string) : silent (process_file w endpoint i path).
Proof.
  unfold process_file. destruct (negb (isfile w path)); [reflexivity|].
  apply silent_try; [|intros e; reflexivity].
  unfold process_file_body, get_challenge, upload_image.
  repeat silent_step.
Qed.

Lemma process_file_cases (w : world) (endpoint : string) (i : nat)
    (path : string) :
  (exists url, fst (process_file w endpoint i path) = Done (Ok url)) \/
  fst (process_file w endpoint i path) = Done (Raise (SystemExit 1)) \/
  fst (process_file w endpoint i path) = Running.
Proof.
  unfold process_file.
  destruct (negb (isfile w path)); [left; eexists; reflexivity|].
  destruct (process_file_body_fails w endpoint (per_file w i) path)
    as [Hraise _].
  unfold try_except_Exception.
  destruct (process_file_body w endpoint (per_file w i) path)
    as [[[url|e]|] t]; cbn [fst] in *.
  - left. eexists. reflexivity.
  - destruct (Hraise e eq_refl) as [Hexc | [-> _]].
    + rewrite Hexc. left. eexists. reflexivity.
    + right. left. reflexivity.
  - right. right. reflexivity.
Qed.

(** The loop of [main] in general: the paths announced are the first
    ones given, in order; either every call of [process_file] returned and
    the loop ends with the successes counted and collected, or the loop
    stopped at the first call that did not return, in the way that call
    ended. *)
Lemma main_loop_spec (w : world) (endpoint : string) :
  forall (image_paths : list string) (i : nat) (successful_uploads : Z)
         (upload_results : list (string * string)),
    summaries
      (snd (main_loop w endpoint i image_paths successful_uploads
              upload_results)) = [] /\
    ((main_loop w endpoint i image_paths successful_uploads upload_results
      = (Done (Ok (successful_uploads
                   + Z.of_nat (List.length (successes w endpoint i image_paths)),
                   upload_results ++ successes w endpoint i image_paths)),
         snd (main_loop w endpoint i image_paths successful_uploads
                upload_results)) /\
      processed
        (snd (main_loop w endpoint i image_paths successful_uploads
                upload_results)) = image_paths /\
      (forall j path,
          nth_error image_paths j = Some path ->
          exists url,
            fst (process_file w endpoint (i + j) path) = Done (Ok url))) \/
     (exists j path,
         nth_error image_paths j = Some path /\
         processed
           (snd (main_loop w endpoint i image_paths successful_uploads
                   upload_results)) = firstn (S j) image_paths /\
         ((fst (main_loop w endpoint i image_paths successful_uploads
                  upload_results) = Done (Raise (SystemExit 1)) /\
           fst (process_file w endpoint (i + j) path)
           = Done (Raise (SystemExit 1))) \/
          (fst (main_loop w endpoint i image_paths successful_uploads
                  upload_results) = Running /\
           fst (process_file w endpoint (i + j) path) = Running)))).
Proof.
  induction image_paths as [|path rest IH];
    intros i successful_uploads upload_results.
  - cbn [main_loop successes List.length]. unfold ret. cbn [snd].
    split; [reflexivity|]. left.
    rewrite Z.add_0_r, app_nil_r. split; [reflexivity|].
    split; [reflexivity|]. intros [|j] path H; discriminate.
  - cbn [main_loop successes].
    pose proof (quiet_process_file w endpoint i path) as Hquiet.
    pose proof (silent_process_file w endpoint i path) as Hsilent.
    pose proof (process_file_cases w endpoint i path) as Hcases.
    unfold quiet in Hquiet. unfold silent in Hsilent.
    rewrite (bind_ok _ _ tt [Print (MProcessing path)] eq_refl).
    destruct (process_file w endpoint i path) as [r t1] eqn:Hpf.
    cbn [fst snd] in Hquiet, Hsilent, Hcases |- *.
    destruct Hcases as [[url ->] | [-> | ->]].
    + rewrite (bind_ok _ _ url t1 eq_refl). cbn [fst snd].
      assert (Hhead : exists url', fst (process_file w endpoint (i + 0) path)
                                   = Done (Ok url')).
      { rewrite Nat.add_0_r, Hpf. exists url. reflexivity. }
      destruct (truthy url).
      * destruct (IH (S i) (successful_uploads + 1)
                     (upload_results ++ [(path, url)]))
          as [Hsum [[Heq [Hproc Hall]] | [j [p [Hj [Hproc Hend]]]]]].
        -- split.
           { rewrite !summaries_app, Hsilent, Hsum. reflexivity. }
           left. split; [|split].
           ++ rewrite Heq. cbn [fst snd List.length].
              replace (successful_uploads + 1
                       + Z.of_nat (List.length
                                     (successes w endpoint (S i) rest)))
                with (successful_uploads
                      + Z.of_nat (S (List.length
                                       (successes w endpoint (S i) rest))))
                by lia.
              replace ((upload_results ++ [(path, url)])
                       ++ successes w endpoint (S i) rest)
                with (upload_results
                      ++ (path, url) :: successes w endpoint (S i) rest)
                by (rewrite <- app_assoc; reflexivity).
              reflexivity.
           ++ rewrite !processed_app, Hquiet, Hproc. reflexivity.
           ++ intros [|j] p Hp.
              ** injection Hp as <-. exact Hhead.
              ** replace (i + S j)%nat with (S i + j)%nat by lia.
                 apply Hall. exact Hp.
        -- split.
           { rewrite !summaries_app, Hsilent, Hsum. reflexivity. }
           right. exists (S j), p. split; [exact Hj|]. split.
           ++ rewrite !processed_app, Hquiet, Hproc. reflexivity.
           ++ replace (i + S j)%nat with (S i + j)%nat by lia. exact Hend.
      * destruct (IH (S i) successful_uploads upload_results)
          as [Hsum [[Heq [Hproc Hall]] | [j [p [Hj [Hproc Hend]]]]]].
        -- split.
           { rewrite !summaries_app, Hsilent, Hsum. reflexivity. }
           left. split; [|split].
           ++ rewrite Heq. reflexivity.
           ++ rewrite !processed_app, Hquiet, Hproc. reflexivity.
           ++ intros [|j] p Hp.
              ** injection Hp as <-. exact Hhead.
              ** replace (i + S j)%nat with (S i + j)%nat by lia.
                 apply Hall. exact Hp.
        -- split.
           { rewrite !summaries_app, Hsilent, Hsum. reflexivity. }
           right. exists (S j), p. split; [exact Hj|]. split.
           ++ rewrite !processed_app, Hquiet, Hproc. reflexivity.
           ++ replace (i + S j)%nat with (S i + j)%nat by lia. exact Hend.
    + cbn [bind fst snd]. split.
      { rewrite summaries_app. cbn [summaries app]. exact Hsilent. }
      right. exists 0%nat, path. split; [reflexivity|]. split.
      * rewrite processed_app, Hquiet. reflexivity.
      * left. rewrite Nat.add_0_r, Hpf. split; reflexivity.
    + cbn [bind fst snd]. split.
      { rewrite summaries_app. cbn [summaries app]. exact Hsilent. }
      right. exists 0%nat, path. split; [reflexivity|]. split.
      * rewrite processed_app, Hquiet. reflexivity.
      * right. rewrite Nat.add_0_r, Hpf. split; reflexivity.
Qed.

(** [main] after its loop: the report when the loop ended, nothing more
    when it did not. *)
Lemma main_value (w : world) (endpoint : string) (image_paths : list string) :
  main w endpoint image_paths
  = match main_loop w endpoint 0 image_paths 0 [] with
    | (Done (Ok st), t) =>
        (Done (Ok tt),
         t ++ Print (MSummary (fst st) (Z.of_nat (List.length image_paths)))
           :: links_trace (snd st))
    | (Done (Raise e), t) => (Done (Raise e), t)
    | (Running, t) => (Running, t)
    end.
Proof.
  unfold main.
  destruct (main_loop w endpoint 0 image_paths 0 []) as [[[st|e]|] t];
    try reflexivity.
  rewrite (bind_ok _ _ st t eq_refl).
  rewrite (bind_ok _ _ tt
             [Print (MSummary (fst st) (Z.of_nat (List.length image_paths)))]
             eq_refl).
  destruct (snd st) as [|pu rs]; [reflexivity|].
  rewrite (bind_ok _ _ tt [Print MLinks] eq_refl), print_links_trace.
  reflexivity.
Qed.

Lemma links_trace_plain (upload_results : list (string * string)) :
  processed (links_trace upload_results) = [] /\
  summaries (links_trace upload_results) = [].
Proof.
  destruct upload_results as [|pu rs]; [split; reflexivity|].
  unfold links_trace. cbn [processed summaries].
  induction (pu :: rs) as [|x l [IH1 IH2]]; [split; reflexivity|].
  cbn [map processed summaries]. split; assumption.
Qed.


(** A challenge request that is never answered keeps the whole program:
    the first file is uploaded, the second waits for ever, the third is
    never announced and nothing is reported. *)
Example unanswered_request_stalls_main :
  main (mkWorld (fun _ => true) (fun _ => true)
          (fun i => match i with 1%nat => stalled_file | _ => good_file end) 5)
       "https://host" ["a.png"; "b.png"; "c.png"]%string
  = (Running,
     [Print (MProcessing "a.png");
      HttpGet "https://host/api2/challenge";
      Print (MText "challenge");
      Print (MChallenge 8 "203.0.113.7");
      Print (MStarting 8);
      Print MFound;
      Print (MUploadingImage "a.png");
      Print MUploading;
      HttpPost "https://host/api2/upload" "a.png" "task-1"
        (hex (candidate demo_env 1 2));
      Print (MUploadOk "a.png");
      Print (MProcessing "b.png");
      HttpGet "https://host/api2/challenge"]).
Proof. vm_compute. reflexivity. Qed.

Example unanswered_upload_stalls :
  fst (process_file
         (mkWorld (fun _ => true) (fun _ => true)
            (fun _ => stalled_upload_file) 5)
         "https://host" 0 "a.png")
  = Running.
Proof. vm_compute. reflexivity. Qed.

(** X19. The report of [main]: when [main] returns, what it printed is the
    lines of the loop, with every path announced in order, then one
    [Upload complete: k/total] line where [total] is the number of paths and
    [k] the number of paths for which [process_file] returned a non-empty
    URL, then, if [k > 0], the [Upload links:] line followed by exactly
    those URLs in the order of their paths. *)
Theorem main_report (w : world) (endpoint : string)
    (image_paths : list string) :
  fst (main w endpoint image_paths) = Done (Ok tt) ->
  exists t_loop,
    snd (main w endpoint image_paths)
    = t_loop
      ++ Print (MSummary
                  (Z.of_nat (List.length (successes w endpoint 0 image_paths)))
                  (Z.of_nat (List.length image_paths)))
      :: links_trace (successes w endpoint 0 image_paths) /\
    processed t_loop = image_paths /\
    summaries t_loop = [] /\
    (List.length (successes w endpoint 0 image_paths)
     <= List.length image_paths)%nat.
Proof.
  rewrite main_value.
  destruct (main_loop_spec w endpoint image_paths 0 0 [])
    as [Hsum [[Heq [Hproc _]] | [j [path [_ [_ Hend]]]]]].
  - intros _. rewrite Heq in *. cbn [fst snd app Z.add] in *.
    eexists. split; [reflexivity|]. split; [exact Hproc|].
    split; [exact Hsum | apply successes_length].
  - destruct (main_loop w endpoint 0 image_paths 0 []) as [[[st|e]|] t];
      cbn [fst] in *; try discriminate.
    destruct Hend as [[H _] | [H _]]; discriminate.
Qed.

Lemma main_report_witness :
  exists t_loop,
    snd (main mixed_world "https://host"
           ["a.png"; "b.png"; "c.png"; "missing.png"; "e.png"]%string)
    = t_loop
      ++ Print (MSummary
                  (Z.of_nat
                     (List.length
                        (successes mixed_world "https://host" 0
                           ["a.png"; "b.png"; "c.png"; "missing.png";
                            "e.png"]%string)))
                  (Z.of_nat 5))
      :: links_trace
           (successes mixed_world "https://host" 0
              ["a.png"; "b.png"; "c.png"; "missing.png"; "e.png"]%string) /\
    processed t_loop
    = ["a.png"; "b.png"; "c.png"; "missing.png"; "e.png"]%string /\
    summaries t_loop = [] /\
    (List.length
       (successes mixed_world "https://host" 0
          ["a.png"; "b.png"; "c.png"; "missing.png"; "e.png"]%string)
     <= 5)%nat.
Proof.
  apply (main_report mixed_world "https://host"
           ["a.png"; "b.png"; "c.png"; "missing.png"; "e.png"]%string).
  vm_compute. reflexivity.
Defined.

Example successes_mixed :
  successes mixed_world "https://host" 0
    ["a.png"; "b.png"; "c.png"; "missing.png"; "e.png"]%string
  = [("a.png", "https://img.example/1.png");
     ("e.png", "https://img.example/1.png")]%string.
Proof. vm_compute. reflexivity. Qed.

(** X20. The order of the work, whatever happens: the paths announced by
    [Processing file: ...] lines are the first paths given, in the order
    given, each once.  When [main] returns it has printed exactly one
    [Upload complete: ...] line; when it does not return (a call of
    [sys.exit(1)], a request that is never answered, a search that does
    not end) it stopped in the file announced last and printed no such
    line. *)
Theorem main_processes_in_order (w : world) (endpoint : string)
    (image_paths : list string) :
  (exists rest,
      image_paths = processed (snd (main w endpoint image_paths)) ++ rest) /\
  (fst (main w endpoint image_paths) = Done (Ok tt) ->
   processed (snd (main w endpoint image_paths)) = image_paths /\
   exists k, summaries (snd (main w endpoint image_paths))
             = [(k, Z.of_nat (List.length image_paths))]) /\
  (fst (main w endpoint image_paths) <> Done (Ok tt) ->
   summaries (snd (main w endpoint image_paths)) = [] /\
   exists j path,
     nth_error image_paths j = Some path /\
     processed (snd (main w endpoint image_paths))
     = firstn (S j) image_paths /\
     fst (process_file w endpoint j path)
     = match fst (main w endpoint image_paths) with
       | Running => Running
       | _ => Done (Raise (SystemExit 1))
       end).
Proof.
  rewrite main_value.
  destruct (main_loop_spec w endpoint image_paths 0 0 [])
    as [Hsum [[Heq [Hproc _]] | [j [path [Hj [Hproc Hend]]]]]].
  - rewrite Heq in *. cbn [fst snd] in *.
    destruct (links_trace_plain
                ([] ++ successes w endpoint 0 image_paths)) as [Hl1 Hl2].
    assert (Hp : processed
                   (snd (main_loop w endpoint 0 image_paths 0 [])
                    ++ Print (MSummary
                                (0 + Z.of_nat
                                       (List.length
                                          (successes w endpoint 0 image_paths)))
                                (Z.of_nat (List.length image_paths)))
                    :: links_trace ([] ++ successes w endpoint 0 image_paths))
                 = image_paths).
    { rewrite processed_app. cbn [processed]. rewrite Hl1, Hproc.
      apply app_nil_r. }
    split; [exists []; rewrite Hp, app_nil_r; reflexivity|].
    split; [|intros H; contradiction H; reflexivity].
    intros _. split; [exact Hp|].
    eexists. rewrite summaries_app. cbn [summaries]. rewrite Hl2, Hsum.
    reflexivity.
  - cbn [Nat.add] in Hend.
    destruct (main_loop w endpoint 0 image_paths 0 []) as [[[st|e]|] t];
      cbn [fst snd] in *.
    + destruct Hend as [[H _] | [H _]]; discriminate.
    + destruct Hend as [[H Hpf] | [H _]]; [|discriminate].
      injection H as ->.
      split; [exists (skipn (S j) image_paths);
              rewrite Hproc, firstn_skipn; reflexivity|].
      split; [discriminate|]. intros _. split; [exact Hsum|].
      exists j, path. auto.
    + destruct Hend as [[H _] | [_ Hpf]]; [discriminate|].
      split; [exists (skipn (S j) image_paths);
              rewrite Hproc, firstn_skipn; reflexivity|].
      split; [discriminate|]. intros _. split; [exact Hsum|].
      exists j, path. auto.
Qed.

Lemma main_processes_in_order_witness :
  summaries (snd (main busy_world "https://host" ["a.png"; "b.png"]%string))
  = [] /\
  exists j path,
    nth_error ["a.png"; "b.png"]%string j = Some path /\
    processed (snd (main busy_world "https://host" ["a.png"; "b.png"]%string))
    = firstn (S j) ["a.png"; "b.png"]%string /\
    fst (process_file busy_world "https://host" j path)
    = match fst (main busy_world "https://host" ["a.png"; "b.png"]%string) with
      | Running => Running
      | _ => Done (Raise (SystemExit 1))
      end.
Proof.
  apply (proj2 (proj2 (main_processes_in_order busy_world "https://host"
                         ["a.png"; "b.png"]%string))).
  vm_compute. discriminate.
Defined.

Lemma main_loop_all_missing (w : world) (endpoint : string) :
  forall (image_paths : list string) (i : nat) (successful_uploads : Z)
         (upload_results : list (string * string)),
    (forall path, In path image_paths -> isfile w path = false) ->
    main_loop w endpoint i image_paths successful_uploads upload_results
    = (Done (Ok (successful_uploads, upload_results)),
       flat_map (fun path => [Print (MProcessing path); Print (MNotExist path)])
                image_paths).
Proof.
  induction image_paths as [|path rest IH];
    intros i successful_uploads upload_results Hall; [reflexivity|].
  cbn [main_loop flat_map].
  rewrite (bind_ok _ _ tt [Print (MProcessing path)] eq_refl).
  assert (Hpf : process_file w endpoint i path
                = (Done (Ok EmptyString), [Print (MNotExist path)])).
  { unfold process_file. rewrite (Hall path (or_introl eq_refl)). reflexivity. }
  rewrite (bind_ok _ _ EmptyString [Print (MNotExist path)] Hpf).
  cbn [truthy]. rewrite IH by (intros p Hp; apply Hall; right; exact Hp).
  reflexivity.
Qed.

(** X21. When none of the paths is a file, [main] never touches the
    network: for each path it prints the [Processing file] line and the
    [does not exist] error, then it reports 0 successes out of the number of
    paths, prints no links, and returns. *)
Theorem main_all_missing (w : world) (endpoint : string)
    (image_paths : list string) :
  (forall path, In path image_paths -> isfile w path = false) ->
  main w endpoint image_paths
  = (Done (Ok tt),
     flat_map (fun path => [Print (MProcessing path); Print (MNotExist path)])
              image_paths
     ++ [Print (MSummary 0 (Z.of_nat (List.length image_paths)))]).
Proof.
  intros Hall. rewrite main_value.
  rewrite (main_loop_all_missing w endpoint image_paths 0 0 [] Hall).
  reflexivity.
Qed.

Lemma main_all_missing_witness :
  main mixed_world "https://host" ["missing.png"; "missing.png"]%string
  = (Done (Ok tt),
     flat_map (fun path => [Print (MProcessing path); Print (MNotExist path)])
              ["missing.png"; "missing.png"]%string
     ++ [Print (MSummary 0 (Z.of_nat 2))]).
Proof.
  apply (main_all_missing mixed_world "https://host"
           ["missing.png"; "missing.png"]%string).
  intros path [<- | [<- | []]]; reflexivity.
Defined.

(** ** Encoding and decoding in the worker *)

(** X22. Lines 82-86 round-trip: the worker writes its candidate as
    hexadecimal text, appends it to the prefix text and decodes the whole.
    The decoding succeeds exactly when the prefix text decodes on its own,
    and what is hashed is then the prefix bytes followed by the candidate
    bytes, whatever white space or upper-case digits the prefix text
    contains. *)
Theorem fromhex_prefix_suffix (pref : string) (c bs : list byte) :
  fromhex (pref ++ hex c) = Ok bs <->
  exists p, fromhex pref = Ok p /\ bs = p ++ c.
Proof.
  split.
  - apply fromhex_app_hex.
  - intros [p [Hp ->]]. apply fromhex_app_ok, Hp.
Qed.

Example fromhex_prefix_suffix_demo :
  fromhex ("C0 ff" ++ hex [x01; xab]) = Ok [xc0; xff; x01; xab] /\
  hex [x01; xab] = "01ab"%string.
Proof. split; reflexivity. Qed.
